(** * Verification of the distance calculator (app.py)

    The program reads a table of named places with addresses, geocodes each
    address through a rate-limited service, and looks up the nearest temple
    in a reference catalog.  This development embeds the three functions of
    app.py that carry the logic,

      - [geocode_address]      (app.py, lines 69-94),
      - [find_nearest_temple]  (app.py, lines 96-113),
      - [process_data]         (app.py, lines 115-174),

    and settles the properties stated about them. *)

From Stdlib Require Import String Ascii NArith ZArith QArith Qround Qabs Lia.
From stdpp Require Import base tactics option numbers list.

Local Open Scope N_scope.

(** ** Python strings

    A Python [str] is a sequence of Unicode code points; the regular
    expressions of the program work on code points, not on bytes. *)

Abbreviation pystr := (list N).

(** String literals of this file are UTF-8 encoded; [py] decodes one into
    the code points Python sees. *)

Fixpoint bytes_of_string (s : string) : list N :=
  match s with
  | EmptyString => []
  | String a rest => N_of_ascii a :: bytes_of_string rest
  end.

Fixpoint utf8_decode (bs : list N) : pystr :=
  match bs with
  | [] => []
  | b0 :: r0 =>
    if b0 <? 0x80 then b0 :: utf8_decode r0
    else if b0 <? 0xE0 then
      match r0 with
      | b1 :: r1 => (b0 mod 32 * 64 + b1 mod 64) :: utf8_decode r1
      | _ => []
      end
    else if b0 <? 0xF0 then
      match r0 with
      | b1 :: b2 :: r2 =>
        (b0 mod 16 * 4096 + b1 mod 64 * 64 + b2 mod 64) :: utf8_decode r2
      | _ => []
      end
    else
      match r0 with
      | b1 :: b2 :: b3 :: r3 =>
        (b0 mod 8 * 262144 + b1 mod 64 * 4096 + b2 mod 64 * 64 + b3 mod 64)
          :: utf8_decode r3
      | _ => []
      end
  end.

Definition py (s : string) : pystr := utf8_decode (bytes_of_string s).

(** The line feed, the only character that [.] of Python's [re] does not
    match (no DOTALL flag is given in app.py). *)
Definition LF : N := 0x0A.

(** *** The character class [\d]

    On a [str] pattern, [\d] matches every character of the Unicode
    category Nd (the characters for which [str.isdecimal] holds), not only
    the ASCII digits: the full-width digits of Japanese addresses are
    digits too.  The table below lists the Nd ranges of Unicode 14. *)

Definition Nd_ranges : list (N * N) :=
  [ (0x30, 0x39); (0x660, 0x669); (0x6F0, 0x6F9); (0x7C0, 0x7C9);
    (0x966, 0x96F); (0x9E6, 0x9EF); (0xA66, 0xA6F); (0xAE6, 0xAEF);
    (0xB66, 0xB6F); (0xBE6, 0xBEF); (0xC66, 0xC6F); (0xCE6, 0xCEF);
    (0xD66, 0xD6F); (0xDE6, 0xDEF); (0xE50, 0xE59); (0xED0, 0xED9);
    (0xF20, 0xF29); (0x1040, 0x1049); (0x1090, 0x1099); (0x17E0, 0x17E9);
    (0x1810, 0x1819); (0x1946, 0x194F); (0x19D0, 0x19D9); (0x1A80, 0x1A89);
    (0x1A90, 0x1A99); (0x1B50, 0x1B59); (0x1BB0, 0x1BB9); (0x1C40, 0x1C49);
    (0x1C50, 0x1C59); (0xA620, 0xA629); (0xA8D0, 0xA8D9); (0xA900, 0xA909);
    (0xA9D0, 0xA9D9); (0xA9F0, 0xA9F9); (0xAA50, 0xAA59); (0xABF0, 0xABF9);
    (0xFF10, 0xFF19); (0x104A0, 0x104A9); (0x10D30, 0x10D39);
    (0x11066, 0x1106F); (0x110F0, 0x110F9); (0x11136, 0x1113F);
    (0x111D0, 0x111D9); (0x112F0, 0x112F9); (0x11450, 0x11459);
    (0x114D0, 0x114D9); (0x11650, 0x11659); (0x116C0, 0x116C9);
    (0x11730, 0x11739); (0x118E0, 0x118E9); (0x11950, 0x11959);
    (0x11C50, 0x11C59); (0x11D50, 0x11D59); (0x11DA0, 0x11DA9);
    (0x16A60, 0x16A69); (0x16AC0, 0x16AC9); (0x16B50, 0x16B59);
    (0x1D7CE, 0x1D7FF); (0x1E140, 0x1E149); (0x1E2F0, 0x1E2F9);
    (0x1E950, 0x1E959); (0x1FBF0, 0x1FBF9) ].

Definition isdecimal (c : N) : bool :=
  existsb (fun r => (fst r <=? c) && (c <=? snd r)) Nd_ranges.

(** *** [re.search(r'\d', address)]

    The match object of the leftmost digit, of which the program only uses
    [match.start()]; [None] when the address has no digit. *)

Definition re_search_digit (address : pystr) : option nat :=
  fst <$> list_find (fun c => Is_true (isdecimal c)) address.

(** Lines 72-76: the part of the address before its first digit. *)
Definition search_address (address : pystr) : pystr :=
  match re_search_digit address with
  | Some start => take start address
  | None => address
  end.

(** *** [re.sub(r'(区|町).*', r'\1', search_address)]

    The two markers are the ward and town suffixes. *)

Definition ward : N := 0x533A.
Definition town : N := 0x753A.

Definition is_marker (c : N) : bool := (c =? ward) || (c =? town).

(** [re.sub] replaces every non-overlapping match, leftmost first.  A match
    starts at a marker and its [.*] runs greedily to the end of the line:
    [.] does not match a line feed.  The match is replaced by its group 1,
    the marker, and the search resumes where the match ended.  The flag
    [in_match] tells whether the scan is inside the [.*] of a match. *)

Fixpoint re_sub_marker (in_match : bool) (s : pystr) : pystr :=
  match s with
  | [] => []
  | c :: rest =>
    if in_match then
      if c =? LF then c :: re_sub_marker false rest
      else re_sub_marker true rest
    else if is_marker c then c :: re_sub_marker true rest
    else c :: re_sub_marker false rest
  end.

(** Line 86. *)
Definition simplified_address (search_address : pystr) : pystr :=
  re_sub_marker false search_address.

(** ** Coordinates, floats and the external world

    A coordinate is a [(latitude, longitude)] tuple.  Finite floats are
    read as the rationals they denote; the scan of [find_nearest_temple]
    also uses [float('inf')]. *)

Definition Coords : Type := Q * Q.

Inductive pyfloat : Type :=
| Finite (q : Q)
| Inf.

(** Python's [x < y] on floats. *)
Definition float_lt (x y : pyfloat) : bool :=
  match x, y with
  | Finite a, Finite b => match (a ?= b)%Q with Lt => true | _ => false end
  | Finite _, Inf => true
  | Inf, _ => false
  end.

(** What the program does to the outside world, oldest event first. *)
Inductive event : Type :=
| Sleep (seconds : nat)        (* time.sleep(seconds) *)
| Geocode (query : pystr)      (* a request geolocator.geocode(query) *)
| Warning (address : pystr).   (* st.warning(...) *)

Definition trace : Type := list event.

(** The answer of the geocoding service to one request: a location, no
    match ([None]), or an exception (time-out, service error, ...). *)
Inductive reply : Type :=
| Location (c : Coords)
| NoMatch
| Failure.

Inductive exn : Type :=
| GeocoderError
| KeyError (column : pystr)
| TypeError.

(** ** A state and exception monad

    A computation threads the trace of events and either returns a value or
    raises. *)

Inductive result (A : Type) : Type :=
| Ok (a : A)
| Raise (e : exn).
Arguments Ok {A} a.
Arguments Raise {A} e.

Definition M (A : Type) : Type := trace -> result A * trace.

Definition ret {A} (a : A) : M A := fun tr => (Ok a, tr).

Definition bind {A B} (m : M A) (k : A -> M B) : M B :=
  fun tr =>
    match m tr with
    | (Ok a, tr') => k a tr'
    | (Raise e, tr') => (Raise e, tr')
    end.

Definition raise {A} (e : exn) : M A := fun tr => (Raise e, tr).

(** [try: m except Exception as e: h e] *)
Definition try_except {A} (m : M A) (h : exn -> M A) : M A :=
  fun tr =>
    match m tr with
    | (Ok a, tr') => (Ok a, tr')
    | (Raise e, tr') => h e tr'
    end.

Definition emit (e : event) : M unit := fun tr => (Ok tt, tr ++ [e]).

Declare Scope monad_scope.
Delimit Scope monad_scope with monad.
Notation "x <- m ;; k" := (bind m (fun x => k))
  (at level 100, m at next level, right associativity) : monad_scope.
Notation "m ;; k" := (bind m (fun _ => k))
  (at level 100, right associativity) : monad_scope.
Local Open Scope monad_scope.

(** ** The reference catalog

    [load_temple_list] zips the latitude and longitude columns into one
    coordinate column; the other columns are read by [process_data].  The
    coordinate is optional: [find_nearest_temple] tests it for truth, and
    [None] stands for a falsy cell. *)

Record Temple : Type := {
  temple_name : pystr;                (* 寺院名 *)
  temple_address : pystr;             (* 住所 *)
  temple_search_address : pystr;      (* 検索住所 *)
  temple_coords : option Coords       (* 緯度・経度 *)
}.

(** The variables of the loop of [find_nearest_temple], and a ghost counter
    of the calls to [geodesic]. *)
Record scan : Type := {
  min_distance : pyfloat;
  nearest_temple_idx : option nat;
  geodesic_calls : nat
}.

(** ** Tables

    A pandas [DataFrame] with the default [RangeIndex]: the label of a row
    is its position.  Column names are unique, as [pd.read_csv] makes them.
    A cell holds [None], [NaN], a string, a coordinate tuple or a float. *)

Inductive value : Type :=
| VNone
| VNaN
| VStr (s : pystr)
| VCoords (c : Coords)
| VFloat (x : pyfloat).

Record DataFrame : Type := {
  columns : list pystr;
  rows : list (list value)
}.

Definition col_index (cols : list pystr) (col : pystr) : option nat :=
  fst <$> list_find (fun c => c = col) cols.

(** The cell of a row in column [col], and the cell of row [i] of a table
    in column [col]. *)
Definition row_cell (cols : list pystr) (row : list value) (col : pystr)
    : option value :=
  j ← col_index cols col; row !! j.

Definition cell (df : DataFrame) (i : nat) (col : pystr) : option value :=
  row ← rows df !! i; row_cell (columns df) row col.

(** [df[col] = v]: an existing column is overwritten, a new one is added
    as the last column; the scalar is broadcast to every row. *)
Definition set_column (df : DataFrame) (col : pystr) (v : value)
    : DataFrame :=
  match col_index (columns df) col with
  | Some j => {| columns := columns df;
                 rows := (fun row => <[j := v]> row) <$> rows df |}
  | None => {| columns := columns df ++ [col];
               rows := (fun row => row ++ [v]) <$> rows df |}
  end.

(** [df.at[index, col] = v] for a label [index] of [df]; a missing column
    is added, with [NaN] in the other rows. *)
Definition set_at (df : DataFrame) (index : nat) (col : pystr) (v : value)
    : DataFrame :=
  match col_index (columns df) col with
  | Some j => {| columns := columns df;
                 rows := alter (fun row => <[j := v]> row) index (rows df) |}
  | None => {| columns := columns df ++ [col];
               rows := alter (fun row => <[length (columns df) := v]> row)
                         index ((fun row => row ++ [VNaN]) <$> rows df) |}
  end.

(** [enumerate] from a given start. *)
Definition enumerate {A} (start : nat) (l : list A) : list (nat * A) :=
  imap (fun i x => (start + i, x))%nat l.

(** [df.iterrows()]: the labels and rows of [df] as they are when the loop
    starts. *)
Definition iterrows (df : DataFrame) : list (nat * list value) :=
  enumerate 0 (rows df).

(** [row[col]] on a row yielded by [iterrows]. *)
Definition row_get (cols : list pystr) (row : list value) (col : pystr)
    : M value :=
  match row_cell cols row col with
  | Some v => ret v
  | None => raise (KeyError col)
  end.

(** The dtype that pandas infers for a column built from Python objects:
    a column whose cells are floats, [NaN] or [None], with at least one
    float or [NaN] among them, becomes a float64 column, in which a missing
    value is [NaN]; any other column keeps its objects, [None] included. *)
Definition column_cells (j : nat) (rows : list (list value)) : list value :=
  omap (fun row : list value => row !! j) rows.

Definition float64 (cells : list value) : bool :=
  forallb (fun v => match v with
                    | VFloat _ | VNaN | VNone => true
                    | _ => false
                    end) cells
  && existsb (fun v => match v with
                       | VFloat _ | VNaN => true
                       | _ => false
                       end) cells.

Definition astype_float (v : value) : value :=
  match v with
  | VNone => VNaN
  | _ => v
  end.

Definition infer_dtypes (rows : list (list value)) : list (list value) :=
  (fun row : list value =>
     imap (fun j v => if float64 (column_cells j rows)
                      then astype_float v else v) row)
  <$> rows.

(** [pd.DataFrame(records)] for a list of dicts that all have the same keys
    in the same order. *)
Definition DataFrame_of_records (records : list (list (pystr * value)))
    : DataFrame :=
  {| columns := match records with
                | [] => []
                | d :: _ => fmap (M := list) fst d
                end;
     rows := infer_dtypes
               (fmap (M := list) (fmap (M := list) snd) records) |}.

(** [pd.concat([a, b], axis=1)] on two frames with a [RangeIndex]: the rows
    are joined on their label, and a frame that has no row with some label
    contributes [NaN] there. *)
Definition concat_axis1 (a b : DataFrame) : DataFrame :=
  {| columns := columns a ++ columns b;
     rows := (fun i =>
                default (replicate (length (columns a)) VNaN) (rows a !! i)
                ++ default (replicate (length (columns b)) VNaN) (rows b !! i))
             <$> seq 0 (length (rows a) `max` length (rows b)) |}.

(** The column names of app.py. *)
Definition col_name : pystr := Eval vm_compute in py "地点名".
Definition col_address : pystr := Eval vm_compute in py "住所".
Definition col_search_address : pystr := Eval vm_compute in py "検索住所".
Definition col_coords : pystr := Eval vm_compute in py "緯度・経度".
Definition col_nearest_name : pystr := Eval vm_compute in py "最寄り寺院名".
Definition col_nearest_address : pystr :=
  Eval vm_compute in py "最寄り寺院_住所".
Definition col_nearest_search_address : pystr :=
  Eval vm_compute in py "最寄り寺院_検索住所".
Definition col_nearest_coords : pystr :=
  Eval vm_compute in py "最寄り寺院_緯度・経度".
Definition col_distance : pystr := Eval vm_compute in py "距離(km)".

Definition coords_value (coords : option Coords) : value :=
  match coords with
  | Some c => VCoords c
  | None => VNone
  end.

(** A Python [for] loop whose body updates the loop state [S]. *)
Fixpoint for_each {A S} (items : list A) (body : S -> A -> M S) (s : S)
    : M S :=
  match items with
  | [] => ret s
  | x :: rest => s' <- body s x ;; for_each rest body s'
  end.

Section Program.

(** The geocoding service.  Its answer may depend on everything that
    happened before the request, so that a query may fail once and succeed
    later. *)
Variable geolocator : trace -> pystr -> reply.

(** [geopy.distance.geodesic(p, q).km], the distance in kilometres between
    two coordinates: a function of the library, total on coordinates and
    with finite values. *)
Variable geodesic : Coords -> Coords -> Q.

(** [round(x, 2)], the built-in function of Python: the float nearest to
    [x] rounded to two decimals. *)
Variable round2 : pyfloat -> pyfloat.

(** [geolocator.geocode(query)] *)
Definition geocode (query : pystr) : M (option Coords) :=
  fun tr =>
    match geolocator tr query with
    | Location c => (Ok (Some c), tr ++ [Geocode query])
    | NoMatch => (Ok None, tr ++ [Geocode query])
    | Failure => (Raise GeocoderError, tr ++ [Geocode query])
    end.

(** app.py, lines 69-94. *)
Definition geocode_address (address : pystr) : M (pystr * option Coords) :=
  let search_address := search_address address in
  try_except
    (emit (Sleep 1) ;;
     location <- geocode search_address ;;
     match location with
     | Some c => ret (search_address, Some c)
     | None =>
       let simplified_address := simplified_address search_address in
       location <- geocode simplified_address ;;
       match location with
       | Some c => ret (simplified_address, Some c)
       | None => ret (search_address, None)
       end
     end)
    (fun e =>
       emit (Warning address) ;;
       ret (search_address, None)).

(** app.py, lines 101-109: one iteration of the loop. *)
Definition scan_step (input_coords : Coords) (st : scan)
    (item : nat * option Coords) : scan :=
  let (idx, cell) := item in
  match cell with
  | Some temple_coords =>
    let distance := Finite (geodesic input_coords temple_coords) in
    if float_lt distance (min_distance st) then
      {| min_distance := distance;
         nearest_temple_idx := Some idx;
         geodesic_calls := S (geodesic_calls st) |}
    else
      {| min_distance := min_distance st;
         nearest_temple_idx := nearest_temple_idx st;
         geodesic_calls := S (geodesic_calls st) |}
  | None => st
  end.

Definition scan_init : scan :=
  {| min_distance := Inf; nearest_temple_idx := None; geodesic_calls := 0 |}.

Definition scan_catalog (input_coords : Coords) (temple_df : list Temple)
    : scan :=
  fold_left (scan_step input_coords)
            (enumerate 0 (temple_coords <$> temple_df)) scan_init.

(** app.py, lines 96-113.  The result is the pair the function returns,
    together with the number of distances it computed.  [temple_df !! idx]
    is [temple_df.iloc[idx]]: the index comes from the scan of [temple_df]
    and is always in range (lemma [scan_catalog_index] below). *)
Definition find_nearest_temple (input_coords : option Coords)
    (temple_df : list Temple) : (option Temple * option pyfloat) * nat :=
  match input_coords with
  | None => ((None, None), 0%nat)
  | Some p =>
    let st := scan_catalog p temple_df in
    match nearest_temple_idx st with
    | Some idx => ((temple_df !! idx, Some (min_distance st)), geodesic_calls st)
    | None => ((None, None), geodesic_calls st)
    end
  end.

(** app.py, lines 130-137: the body of the geocoding loop.  [cols] are the
    columns of the rows that [iterrows] yields. *)
Definition geocode_row (cols : list pystr) (input_df : DataFrame)
    (item : nat * list value) : M DataFrame :=
  let (index, row) := item in
  _ <- row_get cols row col_name ;;          (* shown in the status text *)
  v <- row_get cols row col_address ;;
  address <- match v with
             | VStr a => ret a
             | _ => raise TypeError          (* re.search on a non-string *)
             end ;;
  r <- geocode_address address ;;
  let (search_address, coords) := r in
  let input_df := set_at input_df index col_search_address
                         (VStr search_address) in
  let input_df := set_at input_df index col_coords (coords_value coords) in
  ret input_df.

(** app.py, lines 147-161. *)
Definition temple_info (nearest_temple : option Temple)
    (distance : option pyfloat) : M (list (pystr * value)) :=
  match nearest_temple with
  | Some t =>
    match distance with
    | Some d =>
      ret [ (col_nearest_name, VStr (temple_name t));
            (col_nearest_address, VStr (temple_address t));
            (col_nearest_search_address, VStr (temple_search_address t));
            (col_nearest_coords, coords_value (temple_coords t));
            (col_distance, VFloat (round2 d)) ]
    | None => raise TypeError                (* round(None, 2) *)
    end
  | None =>
    ret [ (col_nearest_name, VNone);
          (col_nearest_address, VNone);
          (col_nearest_search_address, VNone);
          (col_nearest_coords, VNone);
          (col_distance, VNone) ]
  end.

(** app.py, lines 143-163: the body of the matching loop. *)
Definition nearest_row (cols : list pystr) (temple_list_df : list Temple)
    (nearest_temple_data : list (list (pystr * value)))
    (item : nat * list value) : M (list (list (pystr * value))) :=
  let (index, row) := item in
  v <- row_get cols row col_coords ;;
  input_coords <- match v with
                  | VNone => ret None
                  | VCoords c => ret (Some c)
                  | _ => raise TypeError     (* geodesic on a non-point *)
                  end ;;
  let (nearest_temple, distance) :=
    fst (find_nearest_temple input_coords temple_list_df) in
  info <- temple_info nearest_temple distance ;;
  ret (nearest_temple_data ++ [info]).

(** app.py, lines 115-174.  The function updates the caller's [input_df]
    in place and returns [result_df]; the computation yields both: first
    the caller's table as the call leaves it, then the returned table. *)
Definition process_data (input_df : DataFrame) (temple_list_df : list Temple)
    : M (DataFrame * DataFrame) :=
  let input_df := set_column input_df col_search_address VNone in
  let input_df := set_column input_df col_coords VNone in
  input_df <- for_each (iterrows input_df)
                       (geocode_row (columns input_df)) input_df ;;
  nearest_temple_data <-
    for_each (iterrows input_df)
             (nearest_row (columns input_df) temple_list_df) [] ;;
  let nearest_temple_df := DataFrame_of_records nearest_temple_data in
  let result_df := concat_axis1 input_df nearest_temple_df in
  ret (input_df, result_df).

End Program.

(** ** Sample data

    Concrete services, distances and tables on which the statements below
    are exercised. *)

(** A service that knows no address, one that is down, and one that only
    answers its second request. *)
Definition no_match_service : trace -> pystr -> reply := fun _ _ => NoMatch.
Definition failing_service : trace -> pystr -> reply := fun _ _ => Failure.
Definition second_request_service : trace -> pystr -> reply :=
  fun tr _ => if decide (length tr = 2%nat) then Location (1, 2)%Q else NoMatch.

(** A stand-in for [round(x, 2)]: the exact rounding to hundredths, ties to
    the even one (Python returns the float nearest to that number). *)
Definition round_half_even (q : Q) : Z :=
  let n := Qfloor q in
  match (q - inject_Z n ?= 1 # 2)%Q with
  | Lt => n
  | Gt => (n + 1)%Z
  | Eq => if Z.even n then n else (n + 1)%Z
  end.

Definition round_hundredths (x : pyfloat) : pyfloat :=
  match x with
  | Finite q => Finite (round_half_even (q * 100)%Q # 100)
  | Inf => Inf
  end.

(** A stand-in for the geodesic distance: the taxicab distance. *)
Definition taxicab (p q : Coords) : Q :=
  (Qabs (fst p - fst q) + Qabs (snd p - snd q))%Q.

Definition address_A : pystr := py "熊本県熊本市中央区坪井6丁目21".
Definition address_B : pystr := py "愛知県豊明市沓掛町山新田２丁目４０−８".

(** A search address of two lines. *)
Definition two_lines : pystr := py "中央区" ++ LF :: py "坪井".

Definition temple_1 : Temple :=
  {| temple_name := py "T1"; temple_address := py "a1";
     temple_search_address := py "s1"; temple_coords := Some (3, 2)%Q |}.
Definition temple_2 : Temple :=
  {| temple_name := py "T2"; temple_address := py "a2";
     temple_search_address := py "s2"; temple_coords := Some (1, 4)%Q |}.
Definition temple_nowhere : Temple :=
  {| temple_name := py "T0"; temple_address := py "a0";
     temple_search_address := py "s0"; temple_coords := None |}.

Definition sample_input : DataFrame :=
  {| columns := [col_name; col_address];
     rows := [ [VStr (py "A"); VStr address_A];
               [VStr (py "B"); VStr address_B] ] |}.

(** ** Vocabulary of the statements *)

(** The queries sent to the geocoding service, in the order of the
    requests. *)
Definition requests (tr : trace) : list pystr :=
  omap (fun e => match e with Geocode q => Some q | _ => None end) tr.

(** An absent result in the sense of the interface of the specification:
    no match, or a failure of the transport or of the service. *)
Definition absent (r : reply) : Prop :=
  match r with
  | Location _ => False
  | NoMatch | Failure => True
  end.

(** Whether the program pauses for a second or more between any two
    successive requests; [rested] tells whether it has done so since the
    last request. *)
Fixpoint spaced (rested : bool) (tr : trace) : bool :=
  match tr with
  | [] => true
  | Sleep seconds :: rest => spaced (rested || (1 <=? seconds)%nat) rest
  | Geocode _ :: rest => rested && spaced false rest
  | Warning _ :: rest => spaced rested rest
  end.

(** The claim of C3 as the specification words it: the result is the search
    address up to and including its first marker, whatever follows. *)
Definition truncated_at_first_marker (s : pystr) : Prop :=
  (forall (i : nat) (m : N),
      s !! i = Some m -> is_marker m = true ->
      (forall j c, (j < i)%nat -> s !! j = Some c -> is_marker c = false) ->
      simplified_address s = take (S i) s)
  /\ ((forall c, c ∈ s -> is_marker c = false) -> simplified_address s = s).

(** The claim of C8 as the specification words it: an absent first result,
    of either kind, is followed by exactly one more request, for the
    fallback address. *)
Definition retried_once_when_absent (geolocator : trace -> pystr -> reply)
    (address : pystr) (tr : trace) : Prop :=
  let s := search_address address in
  absent (geolocator (tr ++ [Sleep 1]) s) ->
  requests (snd (geocode_address geolocator address tr))
  = requests tr ++ [s; simplified_address s].

(** What the loop of [find_nearest_temple] has established after the
    coordinate cells [cells]: every present cell cost one distance; the
    index, when set, is that of the first cell at the least distance, and
    [min_distance] is that distance. *)
Definition scan_inv (geodesic : Coords -> Coords -> Q) (p : Coords)
    (cells : list (option Coords)) (st : scan) : Prop :=
  geodesic_calls st = length (omap id cells)
  /\ match nearest_temple_idx st with
     | None =>
       min_distance st = Inf /\ forall j c, cells !! j <> Some (Some c)
     | Some i =>
       exists c,
         cells !! i = Some (Some c)
         /\ min_distance st = Finite (geodesic p c)
         /\ (forall j c', cells !! j = Some (Some c') ->
                          (geodesic p c <= geodesic p c')%Q)
         /\ (forall j c', (j < i)%nat -> cells !! j = Some (Some c') ->
                          (geodesic p c < geodesic p c')%Q)
     end.

(** Two scans that agree except on where in their catalog the nearest
    temple sits. *)
Definition scan_agree (l l' : list Temple) (st st' : scan) : Prop :=
  min_distance st = min_distance st'
  /\ geodesic_calls st = geodesic_calls st'
  /\ match nearest_temple_idx st, nearest_temple_idx st' with
     | Some i, Some i' => is_Some (l !! i) /\ l !! i = l' !! i'
     | None, None => True
     | _, _ => False
     end.

(** A table whose rows all have one cell for each column. *)
Definition frame_ok (df : DataFrame) : Prop :=
  Forall (fun row => length row = length (columns df)) (rows df).

(** The addresses of a table, row by row. *)
Definition address_of (cols : list pystr) (row : list value) : pystr :=
  match row_cell cols row col_address with
  | Some (VStr a) => a
  | _ => []
  end.

Definition addresses (df : DataFrame) : list pystr :=
  address_of (columns df) <$> rows df.

(** The trace after the geocoding of some addresses in turn. *)
Definition geocoded_trace (geolocator : trace -> pystr -> reply)
    (addrs : list pystr) (tr : trace) : trace :=
  fold_left (fun tr a => snd (geocode_address geolocator a tr)) addrs tr.

(** Geocoding fails on an address, from a given trace on: the service
    raises on the first request, or it finds no match for the search address
    and gives no location for the fallback address either. *)
Definition geocoding_fails (geolocator : trace -> pystr -> reply)
    (tr : trace) (address : pystr) : Prop :=
  let s := search_address address in
  match geolocator (tr ++ [Sleep 1]) s with
  | Location _ => False
  | Failure => True
  | NoMatch =>
    absent (geolocator (tr ++ [Sleep 1; Geocode s]) (simplified_address s))
  end.

(** An input table as the program expects it: unique column names, one
    cell per column in every row, and in every row a name and an address
    that is a string. *)
Definition wf_input (df : DataFrame) : Prop :=
  NoDup (columns df)
  /\ frame_ok df
  /\ forall i, (i < length (rows df))%nat ->
       is_Some (cell df i col_name)
       /\ exists a, cell df i col_address = Some (VStr a).

(** The columns and the cells that [process_data] appends to a row. *)
Definition match_columns : list pystr :=
  [ col_nearest_name; col_nearest_address; col_nearest_search_address;
    col_nearest_coords; col_distance ].

Definition match_values (geodesic : Coords -> Coords -> Q)
    (round2 : pyfloat -> pyfloat)
    (temple_list_df : list Temple) (input_coords : option Coords)
    : list value :=
  match fst (find_nearest_temple geodesic input_coords temple_list_df) with
  | (Some t, Some d) =>
    [ VStr (temple_name t); VStr (temple_address t);
      VStr (temple_search_address t); coords_value (temple_coords t);
      VFloat (round2 d) ]
  | _ => replicate 5 VNone
  end.

(** The coordinate that a cell holds. *)
Definition coords_of (v : option value) : option Coords :=
  match v with
  | Some (VCoords c) => Some c
  | _ => None
  end.

(** Whether [find_nearest_temple] gives a temple for a coordinate cell. *)
Definition has_match (geodesic : Coords -> Coords -> Q)
    (temple_list_df : list Temple) (input_coords : option Coords) : bool :=
  match fst (find_nearest_temple geodesic input_coords temple_list_df) with
  | (Some _, Some _) => true
  | _ => false
  end.

(** The coordinates of a table, row by row. *)
Definition located_coords (df : DataFrame) : list (option Coords) :=
  (fun row => coords_of (row_cell (columns df) row col_coords)) <$> rows df.

(** Whether some row of a geocoded table has a match: the distances of the
    returned table are then a float column. *)
Definition float_distances (geodesic : Coords -> Coords -> Q)
    (temple_list_df : list Temple) (df : DataFrame) : bool :=
  existsb (has_match geodesic temple_list_df) (located_coords df).

(** The cells that the returned table holds in the match columns of a row:
    those of the match or, for a row without one, four [None] and a missing
    distance, which is [NaN] in a float column and [None] otherwise. *)
Definition result_values (geodesic : Coords -> Coords -> Q)
    (round2 : pyfloat -> pyfloat) (temple_list_df : list Temple)
    (float_column : bool) (input_coords : option Coords) : list value :=
  if has_match geodesic temple_list_df input_coords
  then match_values geodesic round2 temple_list_df input_coords
  else [ VNone; VNone; VNone; VNone; if float_column then VNaN else VNone ].

(** The claim of C9 as the specification words it: the caller's table is
    after the call what it was before. *)
Definition input_left_unchanged (geolocator : trace -> pystr -> reply)
    (geodesic : Coords -> Coords -> Q) (round2 : pyfloat -> pyfloat)
    (input_df : DataFrame)
    (temple_list_df : list Temple) (tr : trace) : Prop :=
  forall input_df' result_df,
    fst (process_data geolocator geodesic round2 input_df temple_list_df tr)
    = Ok (input_df', result_df) ->
    input_df' = input_df.

(** The seconds that the program has slept. *)
Definition slept (tr : trace) : nat :=
  sum_list (omap (fun e => match e with Sleep n => Some n | _ => None end) tr).

(** Whether, at the end of a trace, the program has paused for a second or
    more since its last request. *)
Fixpoint rested_after (rested : bool) (tr : trace) : bool :=
  match tr with
  | [] => rested
  | Sleep seconds :: rest => rested_after (rested || (1 <=? seconds)%nat) rest
  | Geocode _ :: rest => rested_after false rest
  | Warning _ :: rest => rested_after rested rest
  end.

(** Tables that lack a required column, and one whose second address is an
    empty cell. *)
Definition nameless_input : DataFrame :=
  {| columns := [col_address]; rows := [ [VStr address_A] ] |}.
Definition addressless_input : DataFrame :=
  {| columns := [col_name]; rows := [ [VStr (py "A")] ] |}.
Definition gap_input : DataFrame :=
  {| columns := [col_name; col_address];
     rows := [ [VStr (py "A"); VStr address_A];
               [VStr (py "B"); VNaN];
               [VStr (py "C"); VStr address_B] ] |}.

(** ** The script around [process_data]

    The script checks the columns of the uploaded table before the batch
    (app.py, lines 190-196) and counts the outcomes after it (lines 231-252
    and 279-283). *)

(** Line 191. *)
Definition required_columns : list pystr := [col_name; col_address].

(** Line 192. *)
Definition missing_columns (input_df : DataFrame) : list pystr :=
  filter (fun col => col ∉ columns input_df) required_columns.

(** [df[col]]: the cells of a column. *)
Definition getitem (df : DataFrame) (col : pystr) : M (list value) :=
  match col_index (columns df) col with
  | Some j => ret ((fun row => default VNaN (row !! j)) <$> rows df)
  | None => raise (KeyError col)
  end.

(** [isna] of one cell: [None] and [NaN] are missing values. *)
Definition isna (v : value) : bool :=
  match v with
  | VNone | VNaN => true
  | _ => false
  end.

(** Line 231: [result_df['距離(km)'].dropna()]. *)
Definition valid_distances (result_df : DataFrame) : M (list value) :=
  distances <- getitem result_df col_distance ;;
  ret (filter (fun v => isna v = false) distances).

(** Line 279: [result_df[result_df['緯度・経度'].isna()]], as the list of the
    rows that the mask keeps. *)
Definition failed_geocoding (result_df : DataFrame)
    : M (list (list value)) :=
  coords <- getitem result_df col_coords ;;
  ret (fst <$> filter (fun rc => isna rc.2 = true)
                      (zip (rows result_df) coords)).

(** A table without rows. *)
Definition empty_input : DataFrame :=
  {| columns := [col_name; col_address]; rows := [] |}.

(** Whether the address of a row is a string. *)
Definition has_address (cols : list pystr) (row : list value) : bool :=
  match row_cell cols row col_address with
  | Some (VStr _) => true
  | _ => false
  end.

(** * Properties *)

(** ** The search address *)

Lemma re_search_digit_Some (address : pystr) (i : nat) :
  re_search_digit address = Some i <->
  exists d, address !! i = Some d /\ isdecimal d = true /\
    forall j c, (j < i)%nat -> address !! j = Some c -> isdecimal c = false.
Proof.
  unfold re_search_digit. split.
  - intros H. apply fmap_Some in H as [[i' d] [H ->]]. simpl.
    apply list_find_Some in H as (Hd & Hp & Hlt).
    exists d. split; [done|]. split; [by apply Is_true_eq_true|].
    intros j c Hj Hc. specialize (Hlt j c Hc Hj).
    by destruct (isdecimal c); [destruct Hlt|].
  - intros (d & Hd & Hp & Hlt).
    assert (list_find (fun c => Is_true (isdecimal c)) address = Some (i, d))
      as ->; [|done].
    apply list_find_Some. split; [done|]. split; [by rewrite Hp|].
    intros j c Hc Hj. rewrite (Hlt j c Hj Hc). auto.
Qed.

Lemma re_search_digit_None (address : pystr) :
  re_search_digit address = None <->
  forall c, c ∈ address -> isdecimal c = false.
Proof.
  unfold re_search_digit. rewrite fmap_None, list_find_None, list.Forall_forall.
  split; intros H c Hc; specialize (H c Hc).
  - by destruct (isdecimal c); [destruct H|].
  - rewrite H. auto.
Qed.

(** C2.  [search_address] returns the part of the address strictly before
    its first decimal digit, and the whole address when it has no digit; the
    address of the first sample row is cut before its digit 6. *)
Theorem search_address_before_first_digit :
  (forall address : pystr,
      (forall (i : nat) (d : N),
          address !! i = Some d -> isdecimal d = true ->
          (forall j c, (j < i)%nat -> address !! j = Some c ->
                       isdecimal c = false) ->
          search_address address = take i address)
      /\ ((forall c, c ∈ address -> isdecimal c = false) ->
          search_address address = address))
  /\ search_address (py "熊本県熊本市中央区坪井6丁目21")
     = py "熊本県熊本市中央区坪井".
Proof.
  split; [|by vm_compute].
  intros address. unfold search_address. split.
  - intros i d Hd Hp Hlt.
    assert (re_search_digit address = Some i) as ->; [|done].
    apply re_search_digit_Some. eauto.
  - intros H. by apply re_search_digit_None in H as ->.
Qed.

Lemma search_address_before_first_digit_witness :
  (address_B !! 12%nat = Some 0xFF12
   /\ search_address address_B = take 12 address_B)
  /\ search_address (py "no digits here") = py "no digits here".
Proof.
  split; [split; [reflexivity|]|].
  - apply (proj1 (proj1 search_address_before_first_digit address_B)
             12%nat 0xFF12); [reflexivity|reflexivity|].
    intros j c Hj Hc.
    do 12 (destruct j as [|j]; [vm_compute in Hc; by simplify_eq|]). lia.
  - apply (proj2 (proj1 search_address_before_first_digit
                    (py "no digits here"))).
    intros c Hc. vm_compute in Hc.
    repeat (apply elem_of_cons in Hc as [->|Hc]; [reflexivity|]).
    by apply elem_of_nil in Hc.
Defined.

(** ** The fallback address *)

Lemma re_sub_marker_in_match (s : pystr) :
  LF ∉ s -> re_sub_marker true s = [].
Proof.
  induction s as [|c s IH]; [done|].
  intros H. apply not_elem_of_cons in H as [Hc Hs]. simpl.
  destruct (N.eqb_spec c LF); [done|]. auto.
Qed.

Lemma re_sub_marker_no_marker (pre rest : pystr) :
  (forall c, c ∈ pre -> is_marker c = false) ->
  re_sub_marker false (pre ++ rest) = pre ++ re_sub_marker false rest.
Proof.
  induction pre as [|c pre IH]; [done|].
  intros H. simpl. rewrite (H c) by left.
  f_equal. apply IH. intros c' Hc'. apply H. by right.
Qed.

(** C3.  On the search address of two lines ["中央区\n坪井"] the fallback
    address is the whole search address: [.*] stops at the line feed, and
    the second line, which follows the marker, is kept, where the comment
    of line 85 announces an address narrowed down to the ward or town. *)
Theorem simplified_address_two_lines :
  simplified_address two_lines = two_lines
  /\ simplified_address two_lines <> py "中央区".
Proof. split; [reflexivity|discriminate]. Qed.

(** The statement of C3 fails on that search address. *)
Lemma simplified_address_keeps_next_line :
  ~ truncated_at_first_marker two_lines.
Proof.
  intros [H _].
  assert (simplified_address two_lines = take 3 two_lines) as Heq.
  { apply (H 2%nat ward); [reflexivity|reflexivity|].
    intros j c Hj Hc.
    destruct j as [|[|j]]; [..|lia]; vm_compute in Hc; by simplify_eq. }
  vm_compute in Heq. discriminate Heq.
Qed.

(** X18.  When no line feed follows the first marker, the fallback
    address is the search address up to and including that marker; without
    a marker it is the search address itself; and the search address of the
    second sample row is cut after its town marker. *)
Theorem simplified_address_single_line :
  (forall s : pystr,
      (forall (i : nat) (m : N),
          s !! i = Some m -> is_marker m = true ->
          (forall j c, (j < i)%nat -> s !! j = Some c ->
                       is_marker c = false) ->
          LF ∉ drop (S i) s ->
          simplified_address s = take (S i) s)
      /\ ((forall c, c ∈ s -> is_marker c = false) ->
          simplified_address s = s))
  /\ simplified_address (py "愛知県豊明市沓掛町山新田")
     = py "愛知県豊明市沓掛町".
Proof.
  split; [|by vm_compute].
  intros s. unfold simplified_address. split.
  - intros i m Hm Hmark Hfirst Hline.
    rewrite <- (take_drop_middle s i m Hm) at 1.
    rewrite re_sub_marker_no_marker.
    + simpl. rewrite Hmark, (re_sub_marker_in_match _ Hline).
      by rewrite (take_S_r s i m Hm).
    + intros c Hc. apply list_elem_of_lookup in Hc as [j Hj].
      pose proof (lookup_lt_Some _ _ _ Hj) as Hlen.
      rewrite lookup_take_Some in Hj. destruct Hj as [Hj Hlt].
      eauto.
  - intros H. rewrite <- (app_nil_r s) at 1.
    rewrite (re_sub_marker_no_marker s [] H). simpl. apply app_nil_r.
Qed.

(** The markers have no rank among themselves: the leftmost one counts,
    whichever it is. *)
Example simplified_address_leftmost_marker :
  simplified_address (py "沓掛町中央区") = py "沓掛町"
  /\ simplified_address (py "中央区沓掛町") = py "中央区".
Proof. split; reflexivity. Qed.

Lemma simplified_address_single_line_witness :
  simplified_address (py "熊本県熊本市中央区坪井")
  = take 9 (py "熊本県熊本市中央区坪井")
  /\ simplified_address (py "東京都") = py "東京都".
Proof.
  split.
  - apply (proj1 (proj1 simplified_address_single_line
                    (py "熊本県熊本市中央区坪井")) 8%nat ward);
      [reflexivity|reflexivity| |].
    + intros j c Hj Hc.
      do 8 (destruct j as [|j]; [vm_compute in Hc; by simplify_eq|]). lia.
    + vm_compute. intros Hc.
      repeat (apply elem_of_cons in Hc as [Hc|Hc]; [discriminate Hc|]).
      by apply elem_of_nil in Hc.
  - apply (proj2 (proj1 simplified_address_single_line (py "東京都"))).
    intros c Hc. vm_compute in Hc.
    repeat (apply elem_of_cons in Hc as [->|Hc]; [reflexivity|]).
    by apply elem_of_nil in Hc.
Defined.

(** ** Geocoding one address *)

Lemma requests_app (tr1 tr2 : trace) :
  requests (tr1 ++ tr2) = requests tr1 ++ requests tr2.
Proof. apply omap_app. Qed.

(** Every run of [geocode_address], by the answers of the service. *)
Lemma geocode_address_run (geolocator : trace -> pystr -> reply)
    (address : pystr) (tr : trace) :
  geocode_address geolocator address tr =
  let s := search_address address in
  let s2 := simplified_address s in
  match geolocator (tr ++ [Sleep 1]) s with
  | Location c => (Ok (s, Some c), tr ++ [Sleep 1; Geocode s])
  | Failure => (Ok (s, None), tr ++ [Sleep 1; Geocode s; Warning address])
  | NoMatch =>
    match geolocator (tr ++ [Sleep 1; Geocode s]) s2 with
    | Location c => (Ok (s2, Some c), tr ++ [Sleep 1; Geocode s; Geocode s2])
    | NoMatch => (Ok (s, None), tr ++ [Sleep 1; Geocode s; Geocode s2])
    | Failure =>
      (Ok (s, None), tr ++ [Sleep 1; Geocode s; Geocode s2; Warning address])
    end
  end.
Proof.
  unfold geocode_address, try_except, bind, emit, geocode, ret. simpl.
  destruct (geolocator (tr ++ [Sleep 1]) (search_address address));
    rewrite <- ?app_assoc; simpl; try done.
  destruct (geolocator _ (simplified_address (search_address address)));
    rewrite <- ?app_assoc; simpl; done.
Qed.

(** [geocode_address] never raises. *)
Lemma geocode_address_Ok (geolocator : trace -> pystr -> reply)
    (address : pystr) (tr : trace) :
  exists r, fst (geocode_address geolocator address tr) = Ok r.
Proof.
  rewrite geocode_address_run. simpl.
  repeat case_match; simpl; eauto.
Qed.

(** C7.  On an address whose search address the service does not know,
    [geocode_address] sends the fallback request right after the first one:
    it sleeps before the first request only, so the two requests are not
    a second apart. *)
Theorem geocode_address_retry_without_pause :
  snd (geocode_address no_match_service address_B [])
  = [ Sleep 1;
      Geocode (py "愛知県豊明市沓掛町山新田");
      Geocode (py "愛知県豊明市沓掛町") ]
  /\ spaced true (snd (geocode_address no_match_service address_B []))
     = false.
Proof. split; reflexivity. Qed.

(** C8, as stated, fails when the first request raises: the exception
    handler returns at once and the fallback address is never tried. *)
Lemma geocode_address_failure_not_retried :
  ~ retried_once_when_absent failing_service address_A [].
Proof.
  intros H. specialize (H I). vm_compute in H. discriminate H.
Qed.

(** C8, amended.  When the first request finds no match, exactly one more
    request is sent, for the fallback address; the result is the fallback
    address with its coordinate when that request finds a location, and the
    search address without coordinate otherwise.  When the first request
    raises, no other request is sent and the result is the search address
    without coordinate. *)
Theorem geocode_address_retry (geolocator : trace -> pystr -> reply)
    (address : pystr) (tr : trace) :
  let s := search_address address in
  let s2 := simplified_address s in
  let run := geocode_address geolocator address tr in
  (geolocator (tr ++ [Sleep 1]) s = NoMatch ->
   requests (snd run) = requests tr ++ [s; s2]
   /\ fst run = Ok match geolocator (tr ++ [Sleep 1; Geocode s]) s2 with
                   | Location c => (s2, Some c)
                   | NoMatch | Failure => (s, None)
                   end)
  /\ (geolocator (tr ++ [Sleep 1]) s = Failure ->
      requests (snd run) = requests tr ++ [s]
      /\ fst run = Ok (s, None)).
Proof.
  intros s s2 run. subst run s s2. rewrite geocode_address_run. cbv zeta.
  split; intros ->.
  - destruct (geolocator _ (simplified_address _)); simpl;
      by rewrite requests_app.
  - simpl. by rewrite requests_app.
Qed.

Lemma geocode_address_retry_witness :
  (requests (snd (geocode_address second_request_service address_A []))
   = [ py "熊本県熊本市中央区坪井"; py "熊本県熊本市中央区" ]
   /\ fst (geocode_address second_request_service address_A [])
      = Ok (py "熊本県熊本市中央区", Some (1, 2)%Q))
  /\ (requests (snd (geocode_address failing_service address_A []))
      = [ py "熊本県熊本市中央区坪井" ]
      /\ fst (geocode_address failing_service address_A [])
         = Ok (py "熊本県熊本市中央区坪井", None)).
Proof.
  split.
  - apply (proj1 (geocode_address_retry second_request_service address_A [])).
    reflexivity.
  - apply (proj2 (geocode_address_retry failing_service address_A [])).
    reflexivity.
Defined.

(** ** The nearest temple *)

Lemma float_lt_Finite (a b : Q) :
  float_lt (Finite a) (Finite b) = true <-> (a < b)%Q.
Proof.
  simpl. rewrite Qlt_alt. by destruct (a ?= b)%Q.
Qed.

Local Arguments float_lt : simpl never.

Lemma float_lt_Finite_false (a b : Q) :
  float_lt (Finite a) (Finite b) = false <-> (b <= a)%Q.
Proof.
  rewrite <- not_true_iff_false, float_lt_Finite.
  split; [apply Qnot_lt_le | apply Qle_not_lt].
Qed.

Section Nearest.

Variable geodesic : Coords -> Coords -> Q.
Variable p : Coords.

Lemma enumerate_snoc {A} (l : list A) (x : A) :
  enumerate 0 (l ++ [x]) = enumerate 0 l ++ [(length l, x)].
Proof.
  unfold enumerate. rewrite imap_app. simpl. by rewrite Nat.add_0_r.
Qed.

Lemma scan_catalog_snoc (l : list Temple) (t : Temple) :
  scan_catalog geodesic p (l ++ [t])
  = scan_step geodesic p (scan_catalog geodesic p l)
              (length l, temple_coords t).
Proof.
  unfold scan_catalog.
  rewrite fmap_app. change (temple_coords <$> [t]) with [temple_coords t].
  rewrite enumerate_snoc, fold_left_app. simpl.
  by rewrite length_fmap.
Qed.

Lemma scan_inv_step (cells : list (option Coords)) (st : scan)
    (x : option Coords) :
  scan_inv geodesic p cells st ->
  scan_inv geodesic p (cells ++ [x])
           (scan_step geodesic p st (length cells, x)).
Proof.
  intros [Hcalls Hidx]. unfold scan_inv.
  rewrite omap_app, length_app. destruct x as [tc|]; simpl.
  - destruct (nearest_temple_idx st) as [i|] eqn:Hi.
    + destruct Hidx as (c & Hc & Hmin & Hle & Hlt). rewrite Hmin.
      destruct (float_lt _ _) eqn:Hcmp; simpl.
      * apply float_lt_Finite in Hcmp.
        split; [lia|]. exists tc. split; [apply list_lookup_middle; done|].
        split; [done|]. split.
        -- intros j c' Hj. apply lookup_snoc_Some in Hj as [[_ Hj]|[_ Hj]].
           ++ apply Qlt_le_weak. eapply Qlt_le_trans; eauto.
           ++ simplify_eq. apply Qle_refl.
        -- intros j c' Hlen Hj.
           apply lookup_snoc_Some in Hj as [[_ Hj]|[-> _]]; [|lia].
           eapply Qlt_le_trans; eauto.
      * apply float_lt_Finite_false in Hcmp.
        split; [lia|]. exists c.
        split; [by apply lookup_app_l_Some|]. split; [done|]. split.
        -- intros j c' Hj. apply lookup_snoc_Some in Hj as [[_ Hj]|[_ Hj]].
           ++ eauto.
           ++ by simplify_eq.
        -- intros j c' Hji Hj.
           apply lookup_snoc_Some in Hj as [[_ Hj]|[-> _]]; [eauto|].
           apply lookup_lt_Some in Hc. lia.
    + destruct Hidx as [Hmin Hnone]. rewrite Hmin. unfold float_lt. simpl.
      split; [lia|]. exists tc. split; [apply list_lookup_middle; done|].
      split; [done|]. split.
      * intros j c' Hj. apply lookup_snoc_Some in Hj as [[_ Hj]|[_ Hj]].
        -- by apply Hnone in Hj.
        -- simplify_eq. apply Qle_refl.
      * intros j c' Hlen Hj.
        apply lookup_snoc_Some in Hj as [[_ Hj]|[-> _]]; [|lia].
        by apply Hnone in Hj.
  - split; [lia|]. destruct (nearest_temple_idx st) as [i|].
    + destruct Hidx as (c & Hc & Hmin & Hle & Hlt). exists c.
      split; [by apply lookup_app_l_Some|]. split; [done|]. split.
      * intros j c' Hj.
        apply lookup_snoc_Some in Hj as [[_ Hj]|[_ Hj]]; [eauto|done].
      * intros j c' Hji Hj.
        apply lookup_snoc_Some in Hj as [[_ Hj]|[_ Hj]]; [eauto|done].
    + destruct Hidx as [Hmin Hnone]. split; [done|].
      intros j c Hj.
      apply lookup_snoc_Some in Hj as [[_ Hj]|[_ Hj]]; [|done].
      by apply Hnone in Hj.
Qed.

Lemma scan_catalog_inv (temple_df : list Temple) :
  scan_inv geodesic p (temple_coords <$> temple_df)
           (scan_catalog geodesic p temple_df).
Proof.
  induction temple_df as [|t l IH] using rev_ind.
  - split; [done|]. simpl. split; [done|]. intros j c. by destruct j.
  - rewrite scan_catalog_snoc, fmap_app. simpl.
    rewrite <- (length_fmap temple_coords l). by apply scan_inv_step.
Qed.

(** The index that the scan finds is a position of the catalog. *)
Lemma scan_catalog_index (temple_df : list Temple) (idx : nat) :
  nearest_temple_idx (scan_catalog geodesic p temple_df) = Some idx ->
  is_Some (temple_df !! idx).
Proof.
  intros Hidx. destruct (scan_catalog_inv temple_df) as [_ H].
  rewrite Hidx in H. destruct H as (c & Hc & _).
  rewrite list_lookup_fmap in Hc.
  destruct (temple_df !! idx); [eauto|done].
Qed.

Lemma lookup_coords (temple_df : list Temple) (i : nat) (c : Coords) :
  (temple_coords <$> temple_df) !! i = Some (Some c) <->
  exists t, temple_df !! i = Some t /\ temple_coords t = Some c.
Proof.
  rewrite list_lookup_fmap, fmap_Some.
  split; intros (t & Ht & Hc); exists t; auto.
Qed.

(** Dropping the temples without coordinate changes neither the least
    distance, nor the number of distances computed, nor the temple at the
    index found. *)
Lemma scan_catalog_filter (temple_df : list Temple) :
  scan_agree temple_df
             (filter (fun t => is_Some (temple_coords t)) temple_df)
             (scan_catalog geodesic p temple_df)
             (scan_catalog geodesic p
                (filter (fun t => is_Some (temple_coords t)) temple_df)).
Proof.
  induction temple_df as [|t l IH] using rev_ind; [done|].
  rewrite filter_app, scan_catalog_snoc.
  destruct IH as (Hmin & Hcalls & Hidx).
  destruct (temple_coords t) as [tc|] eqn:Ht.
  - rewrite filter_cons_True, filter_nil by (by rewrite Ht).
    rewrite scan_catalog_snoc, Ht. unfold scan_step. rewrite <- Hmin.
    destruct (float_lt _ _); unfold scan_agree; simpl.
    + split; [done|]. split; [by rewrite Hcalls|].
      rewrite !list_lookup_middle by done. eauto.
    + split; [done|]. split; [by rewrite Hcalls|].
      destruct (nearest_temple_idx _) as [i|],
               (nearest_temple_idx _) as [i'|]; try done.
      destruct Hidx as [[t' Ht'] Heq]. rewrite Ht' in Heq.
      rewrite !(lookup_app_l_Some _ _ _ t') by done. eauto.
  - rewrite filter_cons_False, filter_nil, app_nil_r
      by (rewrite Ht; by intros [? ?]).
    unfold scan_agree. simpl. split; [done|]. split; [done|].
    destruct (nearest_temple_idx _) as [i|],
             (nearest_temple_idx _) as [i'|]; try done.
    destruct Hidx as [[t' Ht'] Heq].
    rewrite (lookup_app_l_Some _ _ _ t') by done.
    rewrite <- Heq, Ht'. eauto.
Qed.

End Nearest.

Lemma length_located (l : list Temple) :
  length (omap id (temple_coords <$> l))
  = length (filter (fun t => is_Some (temple_coords t)) l).
Proof.
  induction l as [|t l IH]; [done|].
  rewrite fmap_cons. simpl. unfold id at 1.
  destruct (temple_coords t) eqn:Ht; simpl.
  - rewrite filter_cons_True by (by rewrite Ht). simpl. f_equal. exact IH.
  - rewrite filter_cons_False by (rewrite Ht; by intros [? ?]). exact IH.
Qed.

(** The two outcomes of [find_nearest_temple]. *)
Lemma find_nearest_temple_cases (geodesic : Coords -> Coords -> Q)
    (input_coords : option Coords) (temple_df : list Temple) :
  let r := fst (find_nearest_temple geodesic input_coords temple_df) in
  (r = (None, None)
   /\ (input_coords = None
       \/ forall t, t ∈ temple_df -> temple_coords t = None))
  \/ (exists p i t c,
        input_coords = Some p
        /\ r = (Some t, Some (Finite (geodesic p c)))
        /\ temple_df !! i = Some t
        /\ temple_coords t = Some c
        /\ (forall t' c',
              t' ∈ temple_df -> temple_coords t' = Some c' ->
              (geodesic p c <= geodesic p c')%Q)
        /\ (forall j t' c',
              (j < i)%nat ->
              temple_df !! j = Some t' -> temple_coords t' = Some c' ->
              (geodesic p c < geodesic p c')%Q)).
Proof.
  destruct input_coords as [p|]; [|left; split; [done|by left]].
  destruct (scan_catalog_inv geodesic p temple_df) as [_ Hidx].
  unfold find_nearest_temple.
  destruct (nearest_temple_idx _) as [i|]; simpl.
  - destruct Hidx as (c & Hc & Hmin & Hle & Hlt).
    apply lookup_coords in Hc as (t & Ht & Hc).
    right. exists p, i, t, c. rewrite Ht, Hmin.
    split; [done|]. split; [done|]. split; [done|]. split; [done|]. split.
    + intros t' c' Hin Hc'. apply list_elem_of_lookup in Hin as [j Hj].
      apply (Hle j). apply lookup_coords. eauto.
    + intros j t' c' Hji Hj Hc'. apply (Hlt j); [done|].
      apply lookup_coords. eauto.
  - destruct Hidx as [_ Hnone]. left. split; [done|]. right.
    intros t Hin. apply list_elem_of_lookup in Hin as [j Hj].
    destruct (temple_coords t) as [c|] eqn:Hc; [|done].
    destruct (Hnone j c). apply lookup_coords. eauto.
Qed.

(** A coordinate has a match exactly when the catalog holds a temple with
    a coordinate. *)
Lemma has_match_true (geodesic : Coords -> Coords -> Q)
    (temple_list_df : list Temple) (input_coords : option Coords) :
  has_match geodesic temple_list_df input_coords = true <->
  is_Some input_coords
  /\ exists t, t ∈ temple_list_df /\ is_Some (temple_coords t).
Proof.
  unfold has_match.
  destruct (find_nearest_temple_cases geodesic input_coords temple_list_df)
    as [[Hr Hwhy]|(p & i & t & c & -> & Hr & Ht & Hc & _)];
    cbv zeta in Hr; rewrite Hr.
  - split; [done|]. intros [[p Hp] (t & Hin & [c Hc])].
    destruct Hwhy as [->|Hnone]; [done|].
    rewrite (Hnone t Hin) in Hc. done.
  - split; [|done]. intros _. split; [by eauto|].
    exists t. split; [by eapply list_elem_of_lookup_2|by eauto].
Qed.

(** C1.  On a coordinate and a catalog that is not empty and whose temples
    all have a coordinate, [find_nearest_temple] returns a temple of the
    catalog together with its distance to the coordinate; no temple of the
    catalog is nearer, and every temple before it in the catalog is
    strictly farther. *)
Theorem find_nearest_temple_minimal (geodesic : Coords -> Coords -> Q)
    (p : Coords) (temple_df : list Temple) :
  temple_df <> [] ->
  (forall t, t ∈ temple_df -> is_Some (temple_coords t)) ->
  exists (i : nat) (t : Temple) (c : Coords),
    fst (find_nearest_temple geodesic (Some p) temple_df)
    = (Some t, Some (Finite (geodesic p c)))
    /\ temple_df !! i = Some t
    /\ temple_coords t = Some c
    /\ (forall j t' c',
           temple_df !! j = Some t' -> temple_coords t' = Some c' ->
           (geodesic p c <= geodesic p c')%Q)
    /\ (forall j t' c',
           (j < i)%nat ->
           temple_df !! j = Some t' -> temple_coords t' = Some c' ->
           (geodesic p c < geodesic p c')%Q).
Proof.
  intros Hne Hall.
  destruct (scan_catalog_inv geodesic p temple_df) as [_ Hidx].
  unfold find_nearest_temple.
  destruct (nearest_temple_idx _) as [i|].
  - destruct Hidx as (c & Hc & Hmin & Hle & Hlt).
    apply lookup_coords in Hc as (t & Ht & Hc).
    exists i, t, c. simpl. rewrite Ht, Hmin.
    split; [done|]. split; [done|]. split; [done|].
    split; intros; [eapply Hle | eapply Hlt]; try apply lookup_coords; eauto.
  - destruct Hidx as [_ Hnone]. destruct temple_df as [|t l]; [done|].
    destruct (Hall t) as [c Hc]; [left|].
    exfalso. apply (Hnone 0%nat c). simpl. by rewrite Hc.
Qed.

Lemma find_nearest_temple_minimal_witness :
  exists (i : nat) (t : Temple) (c : Coords),
    fst (find_nearest_temple taxicab (Some (1, 2)%Q) [temple_1; temple_2])
    = (Some t, Some (Finite (taxicab (1, 2)%Q c)))
    /\ [temple_1; temple_2] !! i = Some t
    /\ temple_coords t = Some c
    /\ (forall j t' c',
           [temple_1; temple_2] !! j = Some t' -> temple_coords t' = Some c' ->
           (taxicab (1, 2)%Q c <= taxicab (1, 2)%Q c')%Q)
    /\ (forall j t' c',
           (j < i)%nat ->
           [temple_1; temple_2] !! j = Some t' -> temple_coords t' = Some c' ->
           (taxicab (1, 2)%Q c < taxicab (1, 2)%Q c')%Q).
Proof.
  apply (find_nearest_temple_minimal taxicab (1, 2)%Q [temple_1; temple_2]).
  - discriminate.
  - intros t Ht.
    apply elem_of_cons in Ht as [->|Ht]; [by eexists|].
    apply elem_of_cons in Ht as [->|Ht]; [by eexists|].
    by apply elem_of_nil in Ht.
Defined.

(** Both temples of the sample catalog are at distance 2: the first one is
    returned. *)
Example find_nearest_temple_tie :
  fst (find_nearest_temple taxicab (Some (1, 2)%Q) [temple_1; temple_2])
  = (Some temple_1, Some (Finite (taxicab (1, 2)%Q (3, 2)%Q)))
  /\ fst (find_nearest_temple taxicab (Some (1, 2)%Q) [temple_2; temple_1])
     = (Some temple_2, Some (Finite (taxicab (1, 2)%Q (1, 4)%Q))).
Proof. split; reflexivity. Qed.

(** C5.  Without a point, and on an empty catalog, [find_nearest_temple]
    returns no temple and no distance, and computes no distance. *)
Theorem find_nearest_temple_absent (geodesic : Coords -> Coords -> Q) :
  (forall temple_df : list Temple,
      find_nearest_temple geodesic None temple_df = ((None, None), 0%nat))
  /\ (forall input_coords : option Coords,
        find_nearest_temple geodesic input_coords [] = ((None, None), 0%nat)).
Proof.
  split; [done|]. by intros [c|].
Qed.

(** C10.  The temples without coordinate are skipped: the result is the one
    obtained on the catalog without them, a temple that is returned has a
    coordinate, and a distance is computed for the temples with a coordinate
    only.  On a catalog whose temples all lack a coordinate, nothing is
    returned. *)
Theorem find_nearest_temple_skips_absent (geodesic : Coords -> Coords -> Q)
    (input_coords : option Coords) (temple_df : list Temple) :
  let located := filter (fun t => is_Some (temple_coords t)) temple_df in
  find_nearest_temple geodesic input_coords temple_df
  = find_nearest_temple geodesic input_coords located
  /\ (forall t d,
        fst (find_nearest_temple geodesic input_coords temple_df)
        = (Some t, d) -> is_Some (temple_coords t))
  /\ (forall p, input_coords = Some p ->
        snd (find_nearest_temple geodesic input_coords temple_df)
        = length located)
  /\ ((forall t, t ∈ temple_df -> temple_coords t = None) ->
      fst (find_nearest_temple geodesic input_coords temple_df)
      = (None, None)).
Proof.
  intros located. destruct input_coords as [p|]; [|by repeat split].
  pose proof (scan_catalog_filter geodesic p temple_df)
    as (Hmin & Hcalls & Hagree).
  pose proof (scan_catalog_inv geodesic p temple_df) as [Hcount Hidx].
  fold located in Hmin, Hcalls, Hagree. unfold find_nearest_temple.
  split; [|split; [|split]].
  - rewrite <- Hmin, <- Hcalls.
    destruct (nearest_temple_idx _) as [i|],
             (nearest_temple_idx _) as [i'|]; try done.
    destruct Hagree as [_ ->]. done.
  - intros t d. destruct (nearest_temple_idx _) as [i|]; [|done].
    destruct Hidx as (c & Hc & _). simpl. intros [= Ht _].
    apply lookup_coords in Hc as (t' & Ht' & Hc). by simplify_eq.
  - intros ? _.
    assert (geodesic_calls (scan_catalog geodesic p temple_df)
            = length located) as <-.
    { rewrite Hcount. apply length_located. }
    by destruct (nearest_temple_idx _).
  - intros Hall. destruct (nearest_temple_idx _) as [i|]; [|done].
    destruct Hidx as (c & Hc & _).
    apply lookup_coords in Hc as (t & Ht & Hc).
    apply list_elem_of_lookup_2 in Ht. apply Hall in Ht. congruence.
Qed.

Lemma find_nearest_temple_skips_absent_witness :
  fst (find_nearest_temple taxicab (Some (1, 2)%Q)
         [temple_nowhere; temple_2; temple_nowhere; temple_1])
  = (Some temple_2, Some (Finite (taxicab (1, 2)%Q (1, 4)%Q)))
  /\ is_Some (temple_coords temple_2)
  /\ snd (find_nearest_temple taxicab (Some (1, 2)%Q)
            [temple_nowhere; temple_2; temple_nowhere; temple_1]) = 2%nat
  /\ fst (find_nearest_temple taxicab (Some (1, 2)%Q)
            [temple_nowhere; temple_nowhere]) = (None, None).
Proof.
  pose proof (find_nearest_temple_skips_absent taxicab (Some (1, 2)%Q)
                [temple_nowhere; temple_2; temple_nowhere; temple_1])
    as (Heq & Hsome & Hcalls & _).
  pose proof (find_nearest_temple_skips_absent taxicab (Some (1, 2)%Q)
                [temple_nowhere; temple_nowhere])
    as (_ & _ & _ & Hnone).
  split; [by rewrite Heq|]. split; [by apply (Hsome _ _ eq_refl)|].
  split; [by rewrite (Hcalls _ eq_refl)|].
  apply Hnone. intros t Ht.
  apply elem_of_cons in Ht as [->|Ht]; [done|].
  apply elem_of_cons in Ht as [->|Ht]; [done|].
  by apply elem_of_nil in Ht.
Defined.

(** ** Tables *)

Lemma col_index_Some (cols : list pystr) (col : pystr) (j : nat) :
  col_index cols col = Some j -> cols !! j = Some col.
Proof.
  unfold col_index. intros H. apply fmap_Some in H as [[j' c] [H ->]].
  by apply list_find_Some in H as (H & -> & _).
Qed.

Lemma col_index_None (cols : list pystr) (col : pystr) :
  col_index cols col = None <-> col ∉ cols.
Proof.
  unfold col_index. rewrite fmap_None, list_find_None, list.Forall_forall.
  split.
  - intros H Hin. by apply (H col).
  - by intros H c Hc ->.
Qed.

Lemma col_index_is_Some (cols : list pystr) (col : pystr) :
  col ∈ cols -> is_Some (col_index cols col).
Proof.
  intros Hin. destruct (col_index cols col) eqn:E; [eauto|].
  by apply col_index_None in E.
Qed.

Lemma col_index_inj (cols : list pystr) (c c' : pystr) (j : nat) :
  col_index cols c = Some j -> col_index cols c' = Some j -> c = c'.
Proof.
  intros H H'. apply col_index_Some in H, H'. congruence.
Qed.

Lemma col_index_app_l (cols more : list pystr) (col : pystr) (j : nat) :
  col_index cols col = Some j -> col_index (cols ++ more) col = Some j.
Proof.
  unfold col_index. intros H. apply fmap_Some in H as [[j' c] [H ->]].
  by rewrite (list_find_app_l _ _ _ _ _ H).
Qed.

Lemma col_index_snoc_new (cols : list pystr) (col : pystr) :
  col ∉ cols -> col_index (cols ++ [col]) col = Some (length cols).
Proof.
  intros Hnew. apply col_index_None in Hnew. unfold col_index in *.
  apply fmap_None in Hnew. rewrite list_find_app_r by done.
  simpl. by rewrite decide_True.
Qed.

Lemma col_index_snoc_other (cols : list pystr) (col c : pystr) :
  c <> col -> col_index (cols ++ [col]) c = col_index cols c.
Proof.
  intros Hne. destruct (col_index cols c) as [j|] eqn:E.
  - by apply col_index_app_l.
  - apply col_index_None. apply col_index_None in E.
    rewrite elem_of_app, list_elem_of_singleton. by intros [?|?].
Qed.

Lemma frame_ok_lookup (df : DataFrame) (i : nat) (row : list value) :
  frame_ok df -> rows df !! i = Some row ->
  length row = length (columns df).
Proof.
  intros Hok Hrow. by apply (Forall_lookup_1 _ _ _ _ Hok Hrow).
Qed.

Lemma columns_set_column (df : DataFrame) (col : pystr) (v : value) :
  columns (set_column df col v)
  = if decide (col ∈ columns df) then columns df else columns df ++ [col].
Proof.
  unfold set_column. destruct (col_index _ _) as [j|] eqn:E; simpl.
  - apply col_index_Some, list_elem_of_lookup_2 in E. by rewrite decide_True.
  - apply col_index_None in E. by rewrite decide_False.
Qed.

Lemma length_rows_set_column (df : DataFrame) (col : pystr) (v : value) :
  length (rows (set_column df col v)) = length (rows df).
Proof.
  unfold set_column. destruct (col_index _ _); simpl; apply length_fmap.
Qed.

Lemma frame_ok_set_column (df : DataFrame) (col : pystr) (v : value) :
  frame_ok df -> frame_ok (set_column df col v).
Proof.
  unfold frame_ok, set_column. intros Hok.
  destruct (col_index _ _); simpl; apply Forall_fmap;
    (eapply Forall_impl; [exact Hok|]); simpl; intros row Hrow.
  - by rewrite length_insert.
  - rewrite !length_app, Hrow. done.
Qed.

Lemma cell_set_column (df : DataFrame) (col : pystr) (v : value)
    (i : nat) (c : pystr) :
  frame_ok df ->
  cell (set_column df col v) i c
  = if decide (c = col)
    then (if decide (i < length (rows df))%nat then Some v else None)
    else cell df i c.
Proof.
  intros Hok. unfold set_column, cell, row_cell.
  destruct (col_index (columns df) col) as [j|] eqn:Hj; simpl;
    rewrite list_lookup_fmap;
    (destruct (rows df !! i) as [row|] eqn:Hrow; simpl;
     [ pose proof (frame_ok_lookup _ _ _ Hok Hrow) as Hlen;
       pose proof (lookup_lt_Some _ _ _ Hrow) as Hi
     | apply lookup_ge_None in Hrow;
       repeat case_decide; done || lia ]).
  - case_decide as Hc.
    + subst c. rewrite Hj. simpl. rewrite decide_True by done.
      apply list_lookup_insert_eq. rewrite Hlen.
      by apply col_index_Some, lookup_lt_Some in Hj.
    + destruct (col_index (columns df) c) as [j'|] eqn:Hj'; simpl; [|done].
      apply list_lookup_insert_ne. intros ->.
      apply Hc. eapply col_index_inj; eauto.
  - apply col_index_None in Hj. case_decide as Hc.
    + subst c. rewrite col_index_snoc_new by done. simpl.
      rewrite decide_True by done.
      rewrite <- Hlen. by apply list_lookup_middle.
    + rewrite col_index_snoc_other by done.
      destruct (col_index (columns df) c) as [j'|] eqn:Hj'; simpl; [|done].
      apply lookup_app_l. rewrite Hlen.
      by apply col_index_Some, lookup_lt_Some in Hj'.
Qed.

Lemma columns_set_at (df : DataFrame) (index : nat) (col : pystr)
    (v : value) :
  col ∈ columns df -> columns (set_at df index col v) = columns df.
Proof.
  intros Hin. apply col_index_is_Some in Hin as [j Hj].
  unfold set_at. by rewrite Hj.
Qed.

Lemma length_rows_set_at (df : DataFrame) (index : nat) (col : pystr)
    (v : value) :
  length (rows (set_at df index col v)) = length (rows df).
Proof.
  unfold set_at. destruct (col_index _ _); simpl;
    by rewrite length_alter, ?length_fmap.
Qed.

Lemma frame_ok_set_at (df : DataFrame) (index : nat) (col : pystr)
    (v : value) :
  col ∈ columns df -> frame_ok df -> frame_ok (set_at df index col v).
Proof.
  intros Hin Hok. apply col_index_is_Some in Hin as [j Hj].
  unfold frame_ok, set_at. rewrite Hj. simpl.
  apply Forall_alter; [done|]. intros row _ Hrow.
  by rewrite length_insert.
Qed.

Lemma cell_set_at (df : DataFrame) (index : nat) (col : pystr) (v : value)
    (i : nat) (c : pystr) :
  frame_ok df -> col ∈ columns df ->
  cell (set_at df index col v) i c
  = if decide (i = index /\ c = col)
    then (if decide (i < length (rows df))%nat then Some v else None)
    else cell df i c.
Proof.
  intros Hok Hin. apply col_index_is_Some in Hin as [j Hj].
  unfold set_at, cell, row_cell. rewrite Hj. simpl. rewrite list_lookup_alter.
  destruct (decide (index = i)) as [->|Hne].
  - destruct (rows df !! i) as [row|] eqn:Hrow; simpl.
    + pose proof (frame_ok_lookup _ _ _ Hok Hrow) as Hlen.
      pose proof (lookup_lt_Some _ _ _ Hrow) as Hi.
      case_decide as Hc.
      * destruct Hc as [_ ->]. rewrite Hj. simpl.
        rewrite decide_True by done.
        apply list_lookup_insert_eq. rewrite Hlen.
        by apply col_index_Some, lookup_lt_Some in Hj.
      * destruct (col_index (columns df) c) as [j'|] eqn:Hj'; simpl; [|done].
        apply list_lookup_insert_ne. intros ->.
        apply Hc. split; [done|]. eapply col_index_inj; eauto.
    + apply lookup_ge_None in Hrow. repeat case_decide; done || lia.
  - rewrite decide_False; [done|]. intros [-> _]. done.
Qed.

(** ** The batch *)

Section Batch.

Variable geolocator : trace -> pystr -> reply.
Variable geodesic : Coords -> Coords -> Q.
Variable round2 : pyfloat -> pyfloat.

Lemma geocode_address_pair (address : pystr) (tr : trace) :
  exists s oc,
    geocode_address geolocator address tr
    = (Ok (s, oc), snd (geocode_address geolocator address tr)).
Proof.
  destruct (geocode_address_Ok geolocator address tr) as [[s oc] H].
  exists s, oc. destruct (geocode_address _ _ _) as [r tr']. simpl in *.
  by subst.
Qed.

Lemma geocode_row_run (cols : list pystr) (df : DataFrame) (i : nat)
    (row : list value) (tr : trace) (a s : pystr) (oc : option Coords) :
  is_Some (row_cell cols row col_name) ->
  row_cell cols row col_address = Some (VStr a) ->
  fst (geocode_address geolocator a tr) = Ok (s, oc) ->
  geocode_row geolocator cols df (i, row) tr
  = (Ok (set_at (set_at df i col_search_address (VStr s))
                i col_coords (coords_value oc)),
     snd (geocode_address geolocator a tr)).
Proof.
  intros [name Hn] Ha Hr. unfold geocode_row, row_get, bind, ret.
  rewrite Hn, Ha. destruct (geocode_address _ _ _) as [r tr']. simpl in *.
  by subst.
Qed.

(** The geocoding loop on rows [items] that all hold a name and an address:
    it ends normally, leaves the trace of the geocoding of the addresses
    in turn, and changes the table in the two geocoding columns of the rows
    it visits only. *)
Lemma geocode_loop_run (cols : list pystr)
    (items : list (nat * list value)) (addrs : list pystr) :
  Forall2 (fun item a =>
             is_Some (row_cell cols item.2 col_name)
             /\ row_cell cols item.2 col_address = Some (VStr a))
          items addrs ->
  NoDup items.*1 ->
  forall (df : DataFrame) (tr : trace),
    frame_ok df ->
    col_search_address ∈ columns df -> col_coords ∈ columns df ->
    Forall (fun item => (item.1 < length (rows df))%nat) items ->
    exists df',
      for_each items (geocode_row geolocator cols) df tr
      = (Ok df', geocoded_trace geolocator addrs tr)
      /\ columns df' = columns df
      /\ length (rows df') = length (rows df)
      /\ frame_ok df'
      /\ (forall i c,
            (c <> col_search_address /\ c <> col_coords) \/ i ∉ items.*1 ->
            cell df' i c = cell df i c)
      /\ (forall k i row a,
            items !! k = Some (i, row) -> addrs !! k = Some a ->
            exists s oc,
              fst (geocode_address geolocator a
                     (geocoded_trace geolocator (take k addrs) tr))
              = Ok (s, oc)
              /\ cell df' i col_search_address = Some (VStr s)
              /\ cell df' i col_coords = Some (coords_value oc)).
Proof.
  induction 1 as [|[i row] a items addrs [Hname Haddr] Hrest IH].
  - intros _ df tr Hok Hs Hc _. exists df. repeat split; done.
  - rewrite fmap_cons, NoDup_cons. intros [Hfresh Hnodup].
    intros df tr Hok Hs Hc Hlt.
    apply Forall_cons in Hlt as [Hi Hlt]. simpl in Hi, Hname, Haddr.
    destruct (geocode_address_pair a tr) as (s & oc & Hrun).
    assert (fst (geocode_address geolocator a tr) = Ok (s, oc)) as Hfst
      by (by rewrite Hrun).
    set (df0 := set_at df i col_search_address (VStr s)).
    set (df1 := set_at df0 i col_coords (coords_value oc)).
    assert (columns df0 = columns df) as Hcols0
      by (by apply columns_set_at).
    assert (frame_ok df0) as Hok0 by (by apply frame_ok_set_at).
    assert (columns df1 = columns df) as Hcols1
      by (unfold df1; rewrite columns_set_at; by rewrite ?Hcols0).
    assert (frame_ok df1) as Hok1
      by (apply frame_ok_set_at; by rewrite ?Hcols0).
    assert (length (rows df1) = length (rows df)) as Hlen1
      by (unfold df1, df0; by rewrite !length_rows_set_at).
    assert (forall i' c, cell df1 i' c
              = if decide (i' = i /\ c = col_coords)
                then Some (coords_value oc)
                else if decide (i' = i /\ c = col_search_address)
                     then Some (VStr s)
                     else cell df i' c) as Hcell1.
    { intros i' c. unfold df1.
      rewrite cell_set_at by (by rewrite ?Hcols0).
      unfold df0. rewrite cell_set_at by done.
      rewrite length_rows_set_at.
      repeat case_decide; try done; lia. }
    destruct (IH Hnodup df1 (snd (geocode_address geolocator a tr)))
      as (df' & Hloop & Hcols & Hlen & Hok' & Hother & Hrows);
      [done| by rewrite Hcols1 | by rewrite Hcols1
      | by rewrite Hlen1 |].
    exists df'. split; [|split; [|split; [|split; [|split]]]].
    + cbn [for_each]. unfold bind at 1.
      rewrite (geocode_row_run cols df i row tr a s oc) by done.
      exact Hloop.
    + by rewrite Hcols.
    + by rewrite Hlen.
    + done.
    + intros i' c Hcond. rewrite Hother, Hcell1.
      * rewrite !decide_False; [done|..]; intros [-> ->];
          destruct Hcond as [[? ?]|Hnot]; try done;
          apply Hnot; simpl; left.
      * destruct Hcond as [?|Hnot]; [by left|].
        right. intros Hin. apply Hnot. simpl. by right.
    + intros k i' row' a' Hk Ha'. destruct k as [|k]; simpl in *.
      * simplify_eq. exists s, oc. split; [done|].
        rewrite !Hother by (by right). rewrite !Hcell1.
        split.
        -- rewrite decide_False by (by intros [_ ?]).
           by rewrite decide_True.
        -- by rewrite decide_True.
      * by apply Hrows with row'.
Qed.

Lemma temple_info_run (temple_list_df : list Temple)
    (input_coords : option Coords) (tr : trace) :
  temple_info round2
    (fst (fst (find_nearest_temple geodesic input_coords temple_list_df)))
    (snd (fst (find_nearest_temple geodesic input_coords temple_list_df)))
    tr
  = (Ok (zip match_columns
             (match_values geodesic round2 temple_list_df input_coords)), tr).
Proof.
  unfold match_values, find_nearest_temple.
  destruct input_coords as [p|]; [|done].
  destruct (nearest_temple_idx _) as [idx|]; [|done]. simpl.
  by destruct (temple_list_df !! idx).
Qed.

Lemma length_match_values (temple_list_df : list Temple)
    (input_coords : option Coords) :
  length (match_values geodesic round2 temple_list_df input_coords) = 5%nat.
Proof.
  unfold match_values. by destruct (fst _) as [[t|] [d|]].
Qed.

Lemma nearest_row_run (cols : list pystr) (temple_list_df : list Temple)
    (acc : list (list (pystr * value))) (i : nat) (row : list value)
    (oc : option Coords) (tr : trace) :
  row_cell cols row col_coords = Some (coords_value oc) ->
  nearest_row geodesic round2 cols temple_list_df acc (i, row) tr
  = (Ok (acc ++ [zip match_columns
                     (match_values geodesic round2 temple_list_df oc)]), tr).
Proof.
  intros Hcell. unfold nearest_row, row_get. rewrite Hcell.
  pose proof (temple_info_run temple_list_df oc tr) as Hinfo.
  destruct oc as [c|]; cbv [bind ret coords_value]; revert Hinfo;
    destruct (fst (find_nearest_temple geodesic _ temple_list_df))
      as [nearest_temple distance];
    simpl; by intros ->.
Qed.

(** The matching loop on rows whose coordinate cell holds a coordinate or
    [None], as the geocoding loop leaves them: it ends normally, does
    nothing to the outside world, and collects one record for each row. *)
Lemma nearest_loop_run (cols : list pystr) (temple_list_df : list Temple)
    (items : list (nat * list value)) (ocs : list (option Coords)) :
  Forall2 (fun item oc =>
             row_cell cols item.2 col_coords = Some (coords_value oc))
          items ocs ->
  forall (acc : list (list (pystr * value))) (tr : trace),
    for_each items (nearest_row geodesic round2 cols temple_list_df) acc tr
    = (Ok (acc ++ ((fun oc => zip match_columns
                                  (match_values geodesic round2 temple_list_df oc))
                   <$> ocs)), tr).
Proof.
  induction 1 as [|[i row] oc items ocs Hcell _ IH]; intros acc tr.
  - simpl. by rewrite app_nil_r.
  - cbn [for_each]. unfold bind at 1.
    rewrite (nearest_row_run _ _ _ _ _ oc) by done.
    rewrite IH, fmap_cons. by rewrite <- app_assoc.
Qed.

Lemma lookup_enumerate {A} (l : list A) (k : nat) :
  enumerate 0 l !! k = (fun x => (k, x)) <$> l !! k.
Proof. unfold enumerate. by rewrite list_lookup_imap. Qed.

Lemma cell_row_cell (df : DataFrame) (i : nat) (row : list value)
    (c : pystr) :
  rows df !! i = Some row -> cell df i c = row_cell (columns df) row c.
Proof. intros Hrow. unfold cell. by rewrite Hrow. Qed.

Lemma rows_concat_axis1 (a b : DataFrame) (i : nat) (ra rb : list value) :
  rows a !! i = Some ra -> rows b !! i = Some rb ->
  rows (concat_axis1 a b) !! i = Some (ra ++ rb).
Proof.
  intros Ha Hb. unfold concat_axis1. simpl.
  rewrite list_lookup_fmap, lookup_seq_lt.
  - simpl. by rewrite Ha, Hb.
  - apply lookup_lt_Some in Ha. lia.
Qed.

Lemma length_rows_concat_axis1 (a b : DataFrame) :
  length (rows (concat_axis1 a b))
  = (length (rows a) `max` length (rows b))%nat.
Proof. unfold concat_axis1. simpl. by rewrite length_fmap, length_seq. Qed.

Lemma cell_concat_axis1_l (a b : DataFrame) (i : nat) (c : pystr) :
  frame_ok a -> length (rows b) = length (rows a) -> c ∈ columns a ->
  cell (concat_axis1 a b) i c = cell a i c.
Proof.
  intros Hok Hlen Hin. apply col_index_is_Some in Hin as [j Hj].
  destruct (rows a !! i) as [ra|] eqn:Ha.
  - destruct (lookup_lt_is_Some_2 (rows b) i) as [rb Hb].
    { rewrite Hlen. by apply lookup_lt_Some in Ha. }
    rewrite (cell_row_cell _ _ _ _ (rows_concat_axis1 _ _ _ _ _ Ha Hb)).
    rewrite (cell_row_cell _ _ _ _ Ha). unfold row_cell. simpl.
    rewrite (col_index_app_l _ _ _ _ Hj), Hj. simpl.
    apply lookup_app_l. rewrite (frame_ok_lookup _ _ _ Hok Ha).
    by apply col_index_Some, lookup_lt_Some in Hj.
  - unfold cell. rewrite Ha.
    assert (rows (concat_axis1 a b) !! i = None) as ->; [|done].
    apply lookup_ge_None. apply lookup_ge_None in Ha.
    rewrite length_rows_concat_axis1. lia.
Qed.

Lemma elem_of_columns_set_column (df : DataFrame) (col c : pystr)
    (v : value) :
  c ∈ columns (set_column df col v) <-> c ∈ columns df \/ c = col.
Proof.
  rewrite columns_set_column. case_decide as Hin.
  - split; [by left|]. by intros [?| ->].
  - by rewrite elem_of_app, list_elem_of_singleton.
Qed.

Lemma lookup_iterrows (df : DataFrame) (k i : nat) (row : list value) :
  iterrows df !! k = Some (i, row) <-> i = k /\ rows df !! k = Some row.
Proof.
  unfold iterrows. rewrite lookup_enumerate, fmap_Some. split.
  - by intros (row' & Hrow & [= -> ->]).
  - intros [-> Hrow]. eauto.
Qed.

Lemma NoDup_iterrows (df : DataFrame) : NoDup (iterrows df).*1.
Proof.
  apply NoDup_alt. intros k1 k2 i H1 H2.
  rewrite list_lookup_fmap in H1, H2.
  apply fmap_Some in H1 as ([i1 row1] & H1 & ->).
  apply fmap_Some in H2 as ([i2 row2] & H2 & Heq). simpl in Heq. subst i2.
  apply lookup_iterrows in H1 as [-> _].
  by apply lookup_iterrows in H2 as [-> _].
Qed.

Lemma match_values_cases (temple_list_df : list Temple)
    (oc : option Coords) :
  (has_match geodesic temple_list_df oc = true
   /\ exists t d,
        match_values geodesic round2 temple_list_df oc
        = [ VStr (temple_name t); VStr (temple_address t);
            VStr (temple_search_address t); coords_value (temple_coords t);
            VFloat (round2 d) ])
  \/ (has_match geodesic temple_list_df oc = false
      /\ match_values geodesic round2 temple_list_df oc = replicate 5 VNone).
Proof.
  unfold has_match, match_values.
  destruct (fst _) as [[t|] [d|]]; [left|right..]; eauto.
Qed.

(** The dtypes of the match columns: only the distances can be a float
    column, and they are one when some row has a match. *)
Lemma match_values_floats (temple_list_df : list Temple)
    (ocs : list (option Coords)) (j : nat) :
  existsb (fun v => match v with VFloat _ | VNaN => true | _ => false end)
          (column_cells j
             (match_values geodesic round2 temple_list_df <$> ocs))
  = if (j =? 4)%nat
    then existsb (has_match geodesic temple_list_df) ocs
    else false.
Proof.
  unfold column_cells.
  induction ocs as [|oc ocs IH].
  - simpl. by destruct (j =? 4)%nat.
  - rewrite fmap_cons.
    destruct (match_values_cases temple_list_df oc)
      as [[Hm (t & d & ->)]|[Hm ->]];
      cbn [existsb]; rewrite Hm;
      destruct j as [|[|[|[|[|j]]]]]; cbn -[match_values] in *;
      try exact IH; try done.
    by destruct (temple_coords t).
Qed.

Lemma match_values_distances (temple_list_df : list Temple)
    (ocs : list (option Coords)) :
  forallb (fun v => match v with
                    | VFloat _ | VNaN | VNone => true
                    | _ => false
                    end)
          (column_cells 4
             (match_values geodesic round2 temple_list_df <$> ocs))
  = true.
Proof.
  unfold column_cells.
  induction ocs as [|oc ocs IH]; [done|].
  rewrite fmap_cons.
  by destruct (match_values_cases temple_list_df oc)
    as [[_ (t & d & ->)]|[_ ->]].
Qed.

Lemma float64_match_values (temple_list_df : list Temple)
    (ocs : list (option Coords)) (j : nat) :
  float64 (column_cells j
             (match_values geodesic round2 temple_list_df <$> ocs))
  = if (j =? 4)%nat
    then existsb (has_match geodesic temple_list_df) ocs
    else false.
Proof.
  unfold float64. rewrite match_values_floats.
  destruct (j =? 4)%nat eqn:Hj; [|apply andb_false_r].
  apply Nat.eqb_eq in Hj as ->. by rewrite match_values_distances.
Qed.

Lemma infer_dtypes_match_values (temple_list_df : list Temple)
    (ocs : list (option Coords)) :
  infer_dtypes (match_values geodesic round2 temple_list_df <$> ocs)
  = result_values geodesic round2 temple_list_df
      (existsb (has_match geodesic temple_list_df) ocs) <$> ocs.
Proof.
  unfold infer_dtypes. rewrite <- list_fmap_compose.
  apply list_fmap_ext. intros _ oc _. unfold compose, result_values.
  destruct (match_values_cases temple_list_df oc)
    as [[-> (t & d & Heq)]|[-> Heq]]; rewrite !Heq;
    cbn [imap replicate compose]; rewrite !float64_match_values;
    cbn [Nat.eqb]; by destruct (existsb _ _).
Qed.

(** Every run of [process_data] on a well-formed input table. *)
Lemma process_data_run (input_df : DataFrame)
    (temple_list_df : list Temple) (tr : trace) :
  wf_input input_df ->
  exists input_df' result_df,
    process_data geolocator geodesic round2 input_df temple_list_df tr
    = (Ok (input_df', result_df),
       geocoded_trace geolocator (addresses input_df) tr)
    /\ columns input_df'
       = columns (set_column
                    (set_column input_df col_search_address VNone)
                    col_coords VNone)
    /\ length (rows input_df') = length (rows input_df)
    /\ frame_ok input_df'
    /\ (forall i c,
          c <> col_search_address -> c <> col_coords ->
          cell input_df' i c = cell input_df i c)
    /\ (forall i a,
          cell input_df i col_address = Some (VStr a) ->
          exists s oc,
            fst (geocode_address geolocator a
                   (geocoded_trace geolocator
                      (take i (addresses input_df)) tr))
            = Ok (s, oc)
            /\ cell input_df' i col_search_address = Some (VStr s)
            /\ cell input_df' i col_coords = Some (coords_value oc))
    /\ length (rows result_df) = length (rows input_df)
    /\ (forall i c,
          c ∈ columns input_df' -> cell result_df i c = cell input_df' i c)
    /\ (forall i row,
          rows input_df' !! i = Some row ->
          rows result_df !! i
          = Some (row ++ result_values geodesic round2 temple_list_df
                           (float_distances geodesic temple_list_df input_df')
                           (coords_of (cell input_df' i col_coords)))).
Proof.
  intros (Hnodup & Hok & Hrows).
  pose (dfa := set_column input_df col_search_address VNone).
  pose (df0 := set_column dfa col_coords VNone).
  assert (frame_ok dfa) as Hoka by (by apply frame_ok_set_column).
  assert (frame_ok df0) as Hok0 by (by apply frame_ok_set_column).
  assert (length (rows df0) = length (rows input_df)) as Hlen0
    by (unfold df0, dfa; by rewrite !length_rows_set_column).
  assert (forall i c, c <> col_search_address -> c <> col_coords ->
                      cell df0 i c = cell input_df i c) as Hcell0.
  { intros i c Hs Hc. unfold df0.
    rewrite cell_set_column, decide_False by done.
    unfold dfa. by rewrite cell_set_column, decide_False by done. }
  assert (col_search_address ∈ columns df0) as Hs0.
  { unfold df0, dfa. rewrite !elem_of_columns_set_column. auto. }
  assert (col_coords ∈ columns df0) as Hc0.
  { unfold df0. rewrite elem_of_columns_set_column. auto. }
  assert (Forall2 (fun item a =>
             is_Some (row_cell (columns df0) item.2 col_name)
             /\ row_cell (columns df0) item.2 col_address = Some (VStr a))
            (iterrows df0) (addresses input_df)) as HF.
  { apply Forall2_same_length_lookup_2.
    - unfold iterrows, enumerate, addresses.
      by rewrite length_imap, length_fmap.
    - intros k [i row] a Hk Ha. apply lookup_iterrows in Hk as [-> Hrow].
      unfold addresses in Ha. rewrite list_lookup_fmap in Ha.
      apply fmap_Some in Ha as (row_in & Hrow_in & ->). simpl.
      destruct (Hrows k) as [Hname [a Haddr]];
        [by apply lookup_lt_Some in Hrow_in|].
      rewrite <- !(cell_row_cell df0 k row) by done.
      rewrite !Hcell0 by discriminate.
      split; [done|]. unfold address_of.
      rewrite <- (cell_row_cell input_df k row_in) by done.
      by rewrite Haddr. }
  assert (Forall (fun item => (item.1 < length (rows df0))%nat)
                 (iterrows df0)) as Hlt.
  { apply Forall_lookup_2. intros k [i row] Hk.
    apply lookup_iterrows in Hk as [-> Hrow]. simpl.
    by apply lookup_lt_Some in Hrow. }
  destruct (geocode_loop_run (columns df0) (iterrows df0)
              (addresses input_df) HF (NoDup_iterrows df0) df0 tr
              Hok0 Hs0 Hc0 Hlt)
    as (df1 & Hloop & Hcols1 & Hlen1 & Hok1 & Hother & Hper).
  assert (forall i a,
            cell input_df i col_address = Some (VStr a) ->
            exists s oc,
              fst (geocode_address geolocator a
                     (geocoded_trace geolocator
                        (take i (addresses input_df)) tr))
              = Ok (s, oc)
              /\ cell df1 i col_search_address = Some (VStr s)
              /\ cell df1 i col_coords = Some (coords_value oc)) as Hrow.
  { intros i a Hcell.
    destruct (rows input_df !! i) as [row_in|] eqn:Hrow_in;
      [|by unfold cell in Hcell; rewrite Hrow_in in Hcell].
    destruct (lookup_lt_is_Some_2 (rows df0) i) as [row Hrow];
      [rewrite Hlen0; by apply lookup_lt_Some in Hrow_in|].
    apply (Hper i i row a); [by apply lookup_iterrows|].
    unfold addresses. rewrite list_lookup_fmap, Hrow_in. simpl.
    unfold address_of.
    by rewrite <- (cell_row_cell input_df i row_in), Hcell by done. }
  pose (ocs := (fun row => coords_of (row_cell (columns df1) row col_coords))
               <$> rows df1).
  assert (Forall2 (fun item oc =>
             row_cell (columns df1) item.2 col_coords
             = Some (coords_value oc))
            (iterrows df1) ocs) as HF2.
  { apply Forall2_same_length_lookup_2.
    - unfold iterrows, enumerate, ocs.
      by rewrite length_imap, length_fmap.
    - intros k [i row] oc Hk Hoc. apply lookup_iterrows in Hk as [-> Hk].
      unfold ocs in Hoc. rewrite list_lookup_fmap, Hk in Hoc.
      simpl in *. injection Hoc as <-.
      destruct (Hrows k) as [_ [a Haddr]];
        [rewrite <- Hlen0, <- Hlen1; by apply lookup_lt_Some in Hk|].
      destruct (Hrow k a Haddr) as (s & oc & _ & _ & Hcell).
      rewrite (cell_row_cell df1 k row) in Hcell by done.
      rewrite Hcell. by destruct oc. }
  pose (records := (fun oc => zip match_columns
                                  (match_values geodesic round2 temple_list_df oc))
                   <$> ocs).
  assert (rows (DataFrame_of_records records)
          = result_values geodesic round2 temple_list_df
              (float_distances geodesic temple_list_df df1) <$> ocs)
    as Hrecords.
  { unfold DataFrame_of_records, records. cbn [rows].
    rewrite <- list_fmap_compose.
    rewrite (list_fmap_ext _ (match_values geodesic round2 temple_list_df)).
    - apply infer_dtypes_match_values.
    - intros _ oc _. unfold compose. apply snd_zip.
      by rewrite length_match_values. }
  exists df1, (concat_axis1 df1 (DataFrame_of_records records)).
  split; [|repeat split].
  - unfold process_data. cbv zeta. fold dfa. fold df0. unfold bind.
    rewrite Hloop. by rewrite (nearest_loop_run _ _ _ _ HF2).
  - done.
  - by rewrite Hlen1.
  - done.
  - intros i c Hs Hc. rewrite Hother by (by left). by apply Hcell0.
  - done.
  - rewrite length_rows_concat_axis1, Hrecords. unfold ocs.
    rewrite !length_fmap, Hlen1, Hlen0. lia.
  - intros i c Hin. apply cell_concat_axis1_l; [done| |done].
    rewrite Hrecords. unfold ocs. by rewrite !length_fmap.
  - intros i row Hi. apply rows_concat_axis1; [done|].
    rewrite Hrecords. unfold ocs.
    rewrite !list_lookup_fmap, Hi. simpl.
    by rewrite (cell_row_cell df1 i row).
Qed.

Lemma nearest_row_keys (cols : list pystr) (temple_list_df : list Temple)
    (acc acc' : list (list (pystr * value))) (item : nat * list value)
    (tr tr' : trace) :
  nearest_row geodesic round2 cols temple_list_df acc item tr = (Ok acc', tr') ->
  exists info, acc' = acc ++ [info] /\ info.*1 = match_columns.
Proof.
  destruct item as [i row]. unfold nearest_row, bind.
  destruct (row_get cols row col_coords tr) as [[v|e] tr1]; [|done].
  destruct (match v with
            | VNone => ret None
            | VCoords c => ret (Some c)
            | _ => raise TypeError
            end tr1) as [[input_coords|e] tr2]; [|done].
  destruct (fst (find_nearest_temple geodesic input_coords temple_list_df))
    as [nearest_temple distance].
  destruct (temple_info round2 nearest_temple distance tr2) as [[info|e] tr3] eqn:E;
    [|done].
  intros [= <- _]. exists info. split; [done|].
  unfold temple_info in E.
  destruct nearest_temple as [t|]; [destruct distance as [d|]|];
    by inversion E.
Qed.

Lemma nearest_loop_keys (cols : list pystr) (temple_list_df : list Temple)
    (items : list (nat * list value)) :
  forall (acc data : list (list (pystr * value))) (tr tr' : trace),
    for_each items (nearest_row geodesic round2 cols temple_list_df) acc tr
    = (Ok data, tr') ->
    exists new,
      data = acc ++ new
      /\ length new = length items
      /\ Forall (fun info => info.*1 = match_columns) new.
Proof.
  induction items as [|item items IH]; intros acc data tr tr'.
  - intros [= <- _]. exists []. by rewrite app_nil_r.
  - cbn [for_each]. unfold bind at 1.
    destruct (nearest_row geodesic round2 cols temple_list_df acc item tr)
      as [[acc'|e] tr1] eqn:E; [|done].
    apply nearest_row_keys in E as (info & -> & Hinfo).
    intros Hrest. apply IH in Hrest as (new & -> & Hlen & Hkeys).
    exists (info :: new). rewrite <- app_assoc. split; [done|].
    split; [simpl; by rewrite Hlen|by constructor].
Qed.

Lemma process_data_result_columns (input_df : DataFrame)
    (temple_list_df : list Temple) (tr : trace) :
  wf_input input_df ->
  exists input_df' result_df,
    process_data geolocator geodesic round2 input_df temple_list_df tr
    = (Ok (input_df', result_df),
       geocoded_trace geolocator (addresses input_df) tr)
    /\ columns result_df
       = columns input_df'
         ++ match rows input_df with
            | [] => []
            | _ :: _ => match_columns
            end.
Proof.
  intros Hwf.
  destruct (process_data_run input_df temple_list_df tr Hwf)
    as (input_df' & result_df & Hrun & Hcols & Hlen & _).
  exists input_df', result_df. split; [exact Hrun|].
  unfold process_data, bind in Hrun. cbv zeta in Hrun.
  destruct (for_each _ (geocode_row _ _) _ _) as [[df1|e] tr1]; [|done].
  destruct (for_each _ (nearest_row _ _ _ _) _ _) as [[data|e] tr2] eqn:E;
    [|done].
  injection Hrun as -> <- _.
  apply nearest_loop_keys in E as (new & -> & Hnew & Hkeys).
  unfold iterrows, enumerate in Hnew. rewrite length_imap, Hlen in Hnew.
  simpl. f_equal.
  destruct (rows input_df), new as [|info new]; try done.
  by apply Forall_cons in Hkeys as [-> _].
Qed.

End Batch.

(** The distances are a float column exactly when some row holds a
    coordinate and some temple of the catalog has one. *)
Lemma float_distances_true (geodesic : Coords -> Coords -> Q)
    (temple_list_df : list Temple) (df : DataFrame) :
  float_distances geodesic temple_list_df df = true <->
  (exists j c, cell df j col_coords = Some (VCoords c))
  /\ (exists t, t ∈ temple_list_df /\ is_Some (temple_coords t)).
Proof.
  unfold float_distances, located_coords. rewrite existsb_exists. split.
  - intros (oc & Hin & Hm). apply has_match_true in Hm as [[c ->] Ht].
    split; [|done].
    apply list_elem_of_In, list_elem_of_fmap in Hin as (row & Heq & Hrow).
    apply list_elem_of_lookup in Hrow as [j Hj]. exists j, c.
    rewrite (cell_row_cell _ _ _ _ Hj).
    destruct (row_cell _ row col_coords) as [[]|]; simpl in Heq;
      by simplify_eq.
  - intros [(j & c & Hcell) Ht]. exists (Some c). split.
    + apply list_elem_of_In, list_elem_of_fmap.
      unfold cell in Hcell.
      destruct (rows df !! j) as [row|] eqn:Hj; [|done]. simpl in Hcell.
      exists row. rewrite Hcell. split; [done|].
      by eapply list_elem_of_lookup_2.
    + apply has_match_true. split; [by eexists|done].
Qed.

Lemma wf_sample_input : wf_input sample_input.
Proof.
  split; [|split].
  - apply (bool_decide_unpack _). by vm_compute.
  - by repeat constructor.
  - intros i Hi. destruct i as [|[|i]]; [| |simpl in Hi; lia];
      (split; [by eexists|by eexists]).
Qed.

Lemma columns_added (df : DataFrame) :
  columns (set_column (set_column df col_search_address VNone)
                      col_coords VNone)
  = columns df
    ++ filter (fun c => c ∉ columns df) [col_search_address; col_coords].
Proof.
  rewrite !columns_set_column.
  destruct (decide (col_search_address ∈ columns df)) as [Hs|Hs];
    destruct (decide (col_coords ∈ columns df)) as [Hc|Hc].
  - rewrite !filter_cons_False, filter_nil by (by intros ?).
    by rewrite app_nil_r.
  - by rewrite filter_cons_False, filter_cons_True, filter_nil
      by (by try intros ?).
  - rewrite decide_True by (apply elem_of_app; by left).
    by rewrite filter_cons_True, filter_cons_False, filter_nil
      by (by try intros ?).
  - rewrite decide_False.
    + rewrite !filter_cons_True, filter_nil by done.
      by rewrite <- app_assoc.
    + rewrite elem_of_app, list_elem_of_singleton. by intros [?|?].
Qed.

(** C4.  On an input table of N rows, whatever the service answers,
    [process_data] ends normally and returns a table of N rows, whose row
    [i] holds the cells of row [i] of the input in every column of the
    input (the two geocoding columns apart, which it fills); on an input
    without rows the result has no row. *)
Theorem process_data_row_count (geolocator : trace -> pystr -> reply)
    (geodesic : Coords -> Coords -> Q) (round2 : pyfloat -> pyfloat)
    (input_df : DataFrame) (temple_list_df : list Temple) (tr : trace) :
  wf_input input_df ->
  exists input_df' result_df tr',
    process_data geolocator geodesic round2 input_df temple_list_df tr
    = (Ok (input_df', result_df), tr')
    /\ length (rows result_df) = length (rows input_df)
    /\ (forall i c,
          c ∈ columns input_df ->
          c <> col_search_address -> c <> col_coords ->
          cell result_df i c = cell input_df i c)
    /\ (rows input_df = [] -> rows result_df = []).
Proof.
  intros Hwf.
  destruct (process_data_run geolocator geodesic round2 input_df temple_list_df
              tr Hwf)
    as (input_df' & result_df & Hrun & Hcols & _ & _ & Hsame & _
        & Hlen & Hleft & _).
  eexists input_df', result_df, _. split; [exact Hrun|].
  split; [done|]. split.
  - intros i c Hin Hs Hc. rewrite Hleft; [by apply Hsame|].
    rewrite Hcols, columns_added. apply elem_of_app. by left.
  - intros Hnil. apply length_zero_iff_nil. by rewrite Hlen, Hnil.
Qed.

Lemma process_data_row_count_witness :
  wf_input sample_input
  /\ exists input_df' result_df tr',
      process_data second_request_service taxicab round_hundredths sample_input
                   [temple_1; temple_2] []
      = (Ok (input_df', result_df), tr')
      /\ length (rows result_df) = length (rows sample_input)
      /\ (forall i c,
            c ∈ columns sample_input ->
            c <> col_search_address -> c <> col_coords ->
            cell result_df i c = cell sample_input i c)
      /\ (rows sample_input = [] -> rows result_df = []).
Proof.
  split; [exact wf_sample_input|].
  exact (process_data_row_count second_request_service taxicab
        round_hundredths sample_input
           [temple_1; temple_2] [] wf_sample_input).
Defined.

(** C6.  Whatever the service answers, [process_data] ends normally, having
    geocoded the address of every row in turn, and every row holds the
    search address and the coordinate that its own geocoding gave.  A row
    on which geocoding fails, by an error of the service or for want of a
    match for the search address and for the fallback address, has [None] as
    its coordinate and a missing value in its five match fields: [None] in
    the four fields of the temple, and as distance [NaN] when some row of
    the table has a match (the distances are then a float column) and
    [None] otherwise. *)
Theorem process_data_geocode_failure (geolocator : trace -> pystr -> reply)
    (geodesic : Coords -> Coords -> Q) (round2 : pyfloat -> pyfloat)
    (input_df : DataFrame) (temple_list_df : list Temple) (tr : trace) :
  wf_input input_df ->
  exists input_df' result_df,
    process_data geolocator geodesic round2 input_df temple_list_df tr
    = (Ok (input_df', result_df),
       geocoded_trace geolocator (addresses input_df) tr)
    /\ (forall i a,
          cell input_df i col_address = Some (VStr a) ->
          exists s oc,
            fst (geocode_address geolocator a
                   (geocoded_trace geolocator
                      (take i (addresses input_df)) tr))
            = Ok (s, oc)
            /\ cell result_df i col_search_address = Some (VStr s)
            /\ cell result_df i col_coords = Some (coords_value oc))
    /\ (forall i a,
          cell input_df i col_address = Some (VStr a) ->
          geocoding_fails geolocator
            (geocoded_trace geolocator (take i (addresses input_df)) tr) a ->
          cell result_df i col_coords = Some VNone
          /\ exists row d,
               rows input_df' !! i = Some row
               /\ rows result_df !! i
                  = Some (row ++ [VNone; VNone; VNone; VNone; d])
               /\ (d = VNone \/ d = VNaN)
               /\ (d = VNaN <->
                   (exists j c,
                      cell result_df j col_coords = Some (VCoords c))
                   /\ (exists t,
                         t ∈ temple_list_df /\ is_Some (temple_coords t)))).
Proof.
  intros Hwf.
  destruct (process_data_run geolocator geodesic round2 input_df temple_list_df
              tr Hwf)
    as (input_df' & result_df & Hrun & Hcols & Hlen & _ & _ & Hrow
        & _ & Hleft & Hright).
  assert (col_search_address ∈ columns input_df'
          /\ col_coords ∈ columns input_df') as [Hs Hc].
  { rewrite Hcols, !elem_of_columns_set_column. auto. }
  exists input_df', result_df. split; [exact Hrun|]. split.
  { intros i a Haddr.
    destruct (Hrow i a Haddr) as (s & oc & Hgeo & Hsearch & Hcoords).
    exists s, oc. by rewrite !Hleft. }
  intros i a Haddr Hfails.
  destruct (Hrow i a Haddr) as (s & oc & Hgeo & _ & Hcoords).
  assert (oc = None) as ->.
  { revert Hgeo Hfails. rewrite geocode_address_run.
    unfold geocoding_fails. cbv zeta.
    destruct (geolocator _ (search_address a)); simpl;
      [done| |by intros [= _ <-]].
    destruct (geolocator _ (simplified_address _)); simpl;
      [done|by intros [= _ <-]..]. }
  split; [by rewrite Hleft|].
  destruct (lookup_lt_is_Some_2 (rows input_df') i) as [row Hi].
  { rewrite Hlen. unfold cell in Haddr.
    destruct (rows input_df !! i) eqn:E; [|done].
    by apply lookup_lt_Some in E. }
  exists row,
    (if float_distances geodesic temple_list_df input_df'
     then VNaN else VNone).
  split; [done|]. split; [by rewrite (Hright i row Hi), Hcoords|].
  pose proof (float_distances_true geodesic temple_list_df input_df')
    as Hfloat.
  assert ((exists j c, cell input_df' j col_coords = Some (VCoords c))
          <-> (exists j c, cell result_df j col_coords = Some (VCoords c)))
    as Hsame.
  { split; intros (j & c & Hcell); exists j, c;
      [by rewrite Hleft|by rewrite <- Hleft]. }
  rewrite <- Hsame, <- Hfloat.
  destruct (float_distances _ _ _); (split; [auto|]); by split.
Qed.

Lemma process_data_geocode_failure_witness :
  wf_input sample_input
  /\ exists input_df' result_df,
      process_data second_request_service taxicab round_hundredths
                   sample_input [temple_1; temple_2] []
      = (Ok (input_df', result_df),
         geocoded_trace second_request_service (addresses sample_input) [])
      /\ cell result_df 1 col_coords = Some VNone
      /\ exists row d,
           rows input_df' !! 1%nat = Some row
           /\ rows result_df !! 1%nat
              = Some (row ++ [VNone; VNone; VNone; VNone; d])
           /\ (d = VNone \/ d = VNaN)
           /\ (d = VNaN <->
               (exists j c,
                  cell result_df j col_coords = Some (VCoords c))
               /\ (exists t,
                     t ∈ [temple_1; temple_2]
                     /\ is_Some (temple_coords t))).
Proof.
  split; [exact wf_sample_input|].
  destruct (process_data_geocode_failure second_request_service taxicab
              round_hundredths sample_input [temple_1; temple_2] []
              wf_sample_input)
    as (input_df' & result_df & Hrun & _ & Hfail).
  exists input_df', result_df. split; [exact Hrun|].
  apply (Hfail 1%nat address_B); [reflexivity|].
  vm_compute. exact I.
Defined.

(** C9, as stated, fails: the call adds the two geocoding columns to the
    table of the caller. *)
Lemma process_data_changes_input :
  ~ input_left_unchanged no_match_service taxicab
        round_hundredths sample_input [temple_1] [].
Proof.
  unfold input_left_unchanged. intros H.
  remember (fst (process_data no_match_service taxicab
        round_hundredths sample_input
                   [temple_1] [])) as run eqn:Hrun in H.
  vm_compute in Hrun. subst run.
  specialize (H _ _ eq_refl). apply (f_equal columns) in H.
  vm_compute in H. discriminate H.
Qed.

(** C9, amended.  [process_data] returns its results in a new table, and
    also writes into the table of the caller: it adds to it those of the
    two geocoding columns that it lacks, and fills them, row by row, with
    the search address and the coordinate that the geocoding of the row's
    address gave.  The number of rows of that table and its cells in every
    other column, the names and the addresses among them, are after the
    call what they were before.  The returned table has the columns of the
    caller's table as the call leaves it, with the same cells, followed,
    when the table has rows, by the five match columns with the cells of
    the match of each row. *)
Theorem process_data_extends_input (geolocator : trace -> pystr -> reply)
    (geodesic : Coords -> Coords -> Q) (round2 : pyfloat -> pyfloat)
    (input_df : DataFrame) (temple_list_df : list Temple) (tr : trace) :
  wf_input input_df ->
  exists input_df' result_df tr',
    process_data geolocator geodesic round2 input_df temple_list_df tr
    = (Ok (input_df', result_df), tr')
    /\ columns input_df'
       = columns input_df
         ++ filter (fun c => c ∉ columns input_df)
                   [col_search_address; col_coords]
    /\ length (rows input_df') = length (rows input_df)
    /\ (forall i c,
          c <> col_search_address -> c <> col_coords ->
          cell input_df' i c = cell input_df i c)
    /\ (forall i a,
          cell input_df i col_address = Some (VStr a) ->
          exists s oc,
            fst (geocode_address geolocator a
                   (geocoded_trace geolocator
                      (take i (addresses input_df)) tr))
            = Ok (s, oc)
            /\ cell input_df' i col_search_address = Some (VStr s)
            /\ cell input_df' i col_coords = Some (coords_value oc))
    /\ columns result_df
       = columns input_df'
         ++ match rows input_df with
            | [] => []
            | _ :: _ => match_columns
            end
    /\ length (rows result_df) = length (rows input_df)
    /\ (forall i c,
          c ∈ columns input_df' -> cell result_df i c = cell input_df' i c)
    /\ (forall i row,
          rows input_df' !! i = Some row ->
          rows result_df !! i
          = Some (row ++ result_values geodesic round2 temple_list_df
                           (float_distances geodesic temple_list_df input_df')
                           (coords_of (cell input_df' i col_coords)))).
Proof.
  intros Hwf.
  destruct (process_data_run geolocator geodesic round2 input_df temple_list_df
              tr Hwf)
    as (input_df' & result_df & Hrun & Hcols & Hlen & _ & Hsame & Hrow
        & Hlenres & Hleft & Hright).
  destruct (process_data_result_columns geolocator geodesic round2 input_df
              temple_list_df tr Hwf)
    as (input_df2 & result_df2 & Hrun2 & Hcols2).
  rewrite Hrun in Hrun2. injection Hrun2 as <- <-.
  eexists input_df', result_df, _. split; [exact Hrun|].
  split; [by rewrite Hcols, columns_added|]. by repeat split.
Qed.

Lemma process_data_extends_input_witness :
  wf_input sample_input
  /\ exists input_df' result_df tr',
      process_data second_request_service taxicab round_hundredths
                   sample_input [temple_1; temple_2] []
      = (Ok (input_df', result_df), tr')
      /\ columns input_df'
         = columns sample_input
           ++ filter (fun c => c ∉ columns sample_input)
                     [col_search_address; col_coords]
      /\ length (rows input_df') = length (rows sample_input)
      /\ (forall i c,
            c <> col_search_address -> c <> col_coords ->
            cell input_df' i c = cell sample_input i c)
      /\ (forall i a,
            cell sample_input i col_address = Some (VStr a) ->
            exists s oc,
              fst (geocode_address second_request_service a
                     (geocoded_trace second_request_service
                        (take i (addresses sample_input)) []))
              = Ok (s, oc)
              /\ cell input_df' i col_search_address = Some (VStr s)
              /\ cell input_df' i col_coords = Some (coords_value oc))
      /\ columns result_df
         = columns input_df'
           ++ match rows sample_input with
              | [] => []
              | _ :: _ => match_columns
              end
      /\ length (rows result_df) = length (rows sample_input)
      /\ (forall i c,
            c ∈ columns input_df' ->
            cell result_df i c = cell input_df' i c)
      /\ (forall i row,
            rows input_df' !! i = Some row ->
            rows result_df !! i
            = Some (row ++ result_values taxicab round_hundredths
                             [temple_1; temple_2]
                             (float_distances taxicab [temple_1; temple_2]
                                              input_df')
                             (coords_of (cell input_df' i col_coords)))).
Proof.
  split; [exact wf_sample_input|].
  exact (process_data_extends_input second_request_service taxicab
           round_hundredths sample_input [temple_1; temple_2] []
           wf_sample_input).
Defined.

(** The run on the sample table, with a service that answers the second
    request only: the first row is located through its fallback address and
    matched with the first of the two temples at distance 2, the second row
    is not located and its distance is [NaN]. *)
Example process_data_sample :
  exists input_df' result_df tr',
    process_data second_request_service taxicab round_hundredths sample_input
                 [temple_1; temple_2] []
    = (Ok (input_df', result_df), tr')
    /\ cell result_df 0 col_search_address
       = Some (VStr (py "熊本県熊本市中央区"))
    /\ cell result_df 0 col_coords = Some (VCoords (1, 2)%Q)
    /\ cell result_df 0 col_nearest_name = Some (VStr (py "T1"))
    /\ cell result_df 0 col_distance = Some (VFloat (Finite (200 # 100)))
    /\ cell result_df 1 col_search_address
       = Some (VStr (py "愛知県豊明市沓掛町山新田"))
    /\ cell result_df 1 col_coords = Some VNone
    /\ cell result_df 1 col_distance = Some VNaN
    /\ requests tr'
       = [ py "熊本県熊本市中央区坪井"; py "熊本県熊本市中央区";
           py "愛知県豊明市沓掛町山新田"; py "愛知県豊明市沓掛町" ].
Proof.
  do 3 eexists. split; [by vm_compute|]. by vm_compute.
Qed.

(** * Further properties *)

(** ** The two queries *)

(** X1.  The search address is a prefix of the address and holds no decimal
    digit; computing it from a search address changes nothing. *)
Theorem search_address_digit_free (address : pystr) :
  search_address address `prefix_of` address
  /\ (forall c, c ∈ search_address address -> isdecimal c = false)
  /\ search_address (search_address address) = search_address address.
Proof.
  assert (forall c, c ∈ search_address address -> isdecimal c = false)
    as Hfree.
  { unfold search_address.
    destruct (re_search_digit address) as [i|] eqn:E.
    - apply re_search_digit_Some in E as (d & _ & _ & Hlt).
      intros c Hc. apply list_elem_of_lookup in Hc as [j Hj].
      apply lookup_take_Some in Hj as [Hj Hji]. eauto.
    - by apply re_search_digit_None. }
  split; [|split; [done|]].
  - unfold search_address. destruct (re_search_digit address).
    + apply prefix_take.
    + done.
  - unfold search_address at 1.
    by apply re_search_digit_None in Hfree as ->.
Qed.

Lemma re_sub_marker_sublist (in_match : bool) (s : pystr) :
  re_sub_marker in_match s `sublist_of` s.
Proof.
  revert in_match. induction s as [|c s IH]; intros in_match; simpl.
  - constructor.
  - destruct in_match; repeat case_match; by constructor.
Qed.

Lemma re_sub_marker_twice (in_match : bool) (s : pystr) :
  re_sub_marker in_match (re_sub_marker in_match s)
  = re_sub_marker in_match s.
Proof.
  revert in_match. induction s as [|c s IH]; intros in_match; [done|].
  destruct in_match; simpl.
  - destruct (c =? LF) eqn:Hc; [|apply IH].
    simpl. by rewrite Hc, IH.
  - destruct (is_marker c) eqn:Hc; simpl; by rewrite Hc, IH.
Qed.

(** X2.  The fallback address is made of characters of the search address,
    in their order, and the fallback of a fallback address is that address
    itself. *)
Theorem simplified_address_idempotent (s : pystr) :
  simplified_address s `sublist_of` s
  /\ simplified_address (simplified_address s) = simplified_address s.
Proof.
  split; [apply re_sub_marker_sublist | apply re_sub_marker_twice].
Qed.

(** X3.  One call of [geocode_address] sends the search address to the
    service, then the fallback address if and only if the first request
    found no match, and nothing else; no query holds a decimal digit. *)
Theorem geocode_address_requests (geolocator : trace -> pystr -> reply)
    (address : pystr) (tr : trace) :
  let s := search_address address in
  let s2 := simplified_address s in
  exists qs,
    requests (snd (geocode_address geolocator address tr))
    = requests tr ++ qs
    /\ (qs = [s] \/ qs = [s; s2])
    /\ (qs = [s; s2] <-> geolocator (tr ++ [Sleep 1]) s = NoMatch)
    /\ (forall q c, q ∈ qs -> c ∈ q -> isdecimal c = false).
Proof.
  intros s s2.
  assert (forall q c, q ∈ [s; s2] -> c ∈ q -> isdecimal c = false) as Hfree.
  { intros q c Hq Hc.
    apply (proj1 (proj2 (search_address_digit_free address))).
    apply elem_of_cons in Hq as [->|Hq]; [done|].
    apply list_elem_of_singleton in Hq as ->.
    eapply elem_of_sublist; [exact Hc|]. apply re_sub_marker_sublist. }
  assert (forall q c, q ∈ [s] -> c ∈ q -> isdecimal c = false) as Hfree1.
  { intros q c Hq. apply Hfree. apply list_elem_of_singleton in Hq as ->.
    left. }
  rewrite geocode_address_run. cbv zeta. fold s. fold s2.
  destruct (geolocator (tr ++ [Sleep 1]) s) eqn:E1.
  - exists [s]. simpl. rewrite requests_app. simpl.
    split; [done|]. split; [by left|]. split; [|done].
    split; [by intros [=]|done].
  - exists [s; s2].
    match goal with
    | |- context [geolocator ?t ?q] => destruct (geolocator t q)
    end; simpl; rewrite requests_app; simpl;
      (split; [done|]); (split; [by right|]); by split.
  - exists [s]. simpl. rewrite requests_app. simpl.
    split; [done|]. split; [by left|]. split; [|done].
    split; [by intros [=]|done].
Qed.

(** X4.  [geocode_address] never raises.  A coordinate that it returns is
    the answer of the service to the last request of the call, and that
    request was for the search string returned with it; without coordinate,
    the search string returned is the search address. *)
Theorem geocode_address_sound (geolocator : trace -> pystr -> reply)
    (address : pystr) (tr : trace) :
  exists q oc,
    fst (geocode_address geolocator address tr) = Ok (q, oc)
    /\ match oc with
       | Some c =>
         exists ext,
           snd (geocode_address geolocator address tr)
           = tr ++ ext ++ [Geocode q]
           /\ geolocator (tr ++ ext) q = Location c
       | None => q = search_address address
       end.
Proof.
  rewrite geocode_address_run. cbv zeta.
  destruct (geolocator (tr ++ [Sleep 1]) (search_address address)) eqn:E1.
  - eexists _, (Some c). split; [done|]. by exists [Sleep 1].
  - destruct (geolocator (tr ++ [Sleep 1; Geocode (search_address address)])
                         (simplified_address (search_address address)))
      eqn:E2.
    + eexists _, (Some c). split; [done|].
      exists [Sleep 1; Geocode (search_address address)]. by split.
    + by eexists _, None.
    + by eexists _, None.
  - by eexists _, None.
Qed.

(** ** Pauses and requests of a batch *)

Lemma spaced_app (rested : bool) (tr ext : trace) :
  spaced rested (tr ++ ext)
  = spaced rested tr && spaced (rested_after rested tr) ext.
Proof.
  revert rested. induction tr as [|e tr IH]; intros rested; [done|].
  destruct e; simpl; rewrite IH; by rewrite ?andb_assoc.
Qed.

Lemma rested_after_app (rested : bool) (tr ext : trace) :
  rested_after rested (tr ++ ext)
  = rested_after (rested_after rested tr) ext.
Proof.
  revert rested. induction tr as [|e tr IH]; intros rested; [done|].
  destruct e; simpl; by rewrite IH.
Qed.

Lemma slept_app (tr ext : trace) :
  slept (tr ++ ext) = (slept tr + slept ext)%nat.
Proof.
  unfold slept. induction tr as [|e tr IH]; [done|].
  destruct e; simpl; [|exact IH..].
  rewrite <- Nat.add_assoc. f_equal. exact IH.
Qed.

Section Pauses.

Variable geolocator : trace -> pystr -> reply.

(** After one call of [geocode_address]: the requests are still a second
    apart unless the call fell back; the last request has just been sent;
    one more second has been slept; one or two more requests were sent. *)
Lemma geocode_address_pause (rested : bool) (address : pystr) (tr : trace) :
  let tr' := snd (geocode_address geolocator address tr) in
  spaced rested tr'
  = spaced rested tr
    && match geolocator (tr ++ [Sleep 1]) (search_address address) with
       | NoMatch => false
       | _ => true
       end
  /\ rested_after rested tr' = false
  /\ slept tr' = (slept tr + 1)%nat
  /\ (length (requests tr) + 1 <= length (requests tr')
      <= length (requests tr) + 2)%nat.
Proof.
  rewrite geocode_address_run. cbv zeta.
  destruct (geolocator (tr ++ [Sleep 1]) (search_address address));
    [| match goal with
       | |- context [geolocator ?t ?q] => destruct (geolocator t q)
       end |];
    simpl;
    rewrite spaced_app, rested_after_app, slept_app, requests_app,
      length_app; simpl;
    rewrite ?orb_true_r, ?andb_true_r, ?andb_false_r;
    repeat split; lia.
Qed.

Lemma geocoded_trace_cons (a : pystr) (addrs : list pystr) (tr : trace) :
  geocoded_trace geolocator (a :: addrs) tr
  = geocoded_trace geolocator addrs
      (snd (geocode_address geolocator a tr)).
Proof. done. Qed.

(** The requests of a batch are a second apart if and only if no address
    falls back. *)
Lemma geocoded_trace_spaced (addrs : list pystr) (rested : bool)
    (tr : trace) :
  spaced rested (geocoded_trace geolocator addrs tr) = true <->
  spaced rested tr = true
  /\ forall i a,
       addrs !! i = Some a ->
       geolocator (geocoded_trace geolocator (take i addrs) tr ++ [Sleep 1])
                  (search_address a) <> NoMatch.
Proof.
  revert tr. induction addrs as [|a addrs IH]; intros tr.
  - simpl. split; [|by intros [? _]]. intros H. split; [done|].
    intros i b Hi. by rewrite lookup_nil in Hi.
  - rewrite geocoded_trace_cons, IH.
    destruct (geocode_address_pause rested a tr) as (-> & _).
    rewrite andb_true_iff. split.
    + intros [[Htr Hfirst] Hrest]. split; [done|].
      intros [|i] b Hi; simpl in Hi.
      * simplify_eq. simpl. intros E. by rewrite E in Hfirst.
      * rewrite firstn_cons, geocoded_trace_cons. by apply Hrest.
    + intros [Htr Hall]. split; [split; [done|]|].
      * specialize (Hall 0%nat a eq_refl). simpl in Hall.
        by destruct (geolocator _ _).
      * intros i b Hi. specialize (Hall (S i) b Hi).
        by rewrite firstn_cons, geocoded_trace_cons in Hall.
Qed.

Lemma geocoded_trace_count (addrs : list pystr) (tr : trace) :
  slept (geocoded_trace geolocator addrs tr)
  = (slept tr + length addrs)%nat
  /\ (length (requests tr) + length addrs
      <= length (requests (geocoded_trace geolocator addrs tr))
      <= length (requests tr) + 2 * length addrs)%nat.
Proof.
  revert tr. induction addrs as [|a addrs IH]; intros tr.
  - simpl. lia.
  - rewrite geocoded_trace_cons.
    destruct (IH (snd (geocode_address geolocator a tr))) as [-> Hreq].
    destruct (geocode_address_pause true a tr) as (_ & _ & -> & Hone).
    simpl in *. lia.
Qed.

End Pauses.

(** X5.  In a run of [process_data] the requests to the service are a
    second apart if and only if no row needs the fallback request, that is,
    if the first request of every row finds a location or raises. *)
Theorem process_data_spaced (geolocator : trace -> pystr -> reply)
    (geodesic : Coords -> Coords -> Q) (round2 : pyfloat -> pyfloat)
    (input_df : DataFrame) (temple_list_df : list Temple) :
  wf_input input_df ->
  spaced true
    (snd (process_data geolocator geodesic round2 input_df temple_list_df []))
  = true
  <-> forall i a,
        addresses input_df !! i = Some a ->
        geolocator
          (geocoded_trace geolocator (take i (addresses input_df)) []
           ++ [Sleep 1])
          (search_address a) <> NoMatch.
Proof.
  intros Hwf.
  destruct (process_data_run geolocator geodesic round2 input_df temple_list_df
              [] Hwf) as (input_df' & result_df & -> & _).
  simpl. rewrite geocoded_trace_spaced. simpl. by split; [intros [_ ?]|].
Qed.

Lemma process_data_spaced_witness :
  wf_input sample_input
  /\ spaced true
       (snd (process_data failing_service taxicab round_hundredths sample_input
               [temple_1; temple_2] [])) = true.
Proof.
  split; [exact wf_sample_input|].
  apply (process_data_spaced failing_service taxicab
        round_hundredths sample_input
           [temple_1; temple_2] wf_sample_input).
  intros i a _. discriminate.
Defined.

(** X6.  A run of [process_data] on N rows sleeps N seconds in all and
    sends at least N and at most 2 N requests to the service. *)
Theorem process_data_pauses (geolocator : trace -> pystr -> reply)
    (geodesic : Coords -> Coords -> Q) (round2 : pyfloat -> pyfloat)
    (input_df : DataFrame) (temple_list_df : list Temple) (tr : trace) :
  wf_input input_df ->
  let tr' :=
    snd (process_data geolocator geodesic round2 input_df temple_list_df tr) in
  let n := length (rows input_df) in
  slept tr' = (slept tr + n)%nat
  /\ (length (requests tr) + n <= length (requests tr')
      <= length (requests tr) + 2 * n)%nat.
Proof.
  intros Hwf.
  destruct (process_data_run geolocator geodesic round2 input_df temple_list_df
              tr Hwf) as (input_df' & result_df & -> & _).
  simpl.
  pose proof (geocoded_trace_count geolocator (addresses input_df) tr) as H.
  assert (length (addresses input_df) = length (rows input_df)) as Hlen
    by apply length_fmap.
  by rewrite Hlen in H.
Qed.

Lemma process_data_pauses_witness :
  wf_input sample_input
  /\ slept (snd (process_data second_request_service taxicab
        round_hundredths sample_input
                   [temple_1; temple_2] [])) = 2%nat.
Proof.
  split; [exact wf_sample_input|].
  exact (proj1 (process_data_pauses second_request_service taxicab round_hundredths
                  sample_input [temple_1; temple_2] [] wf_sample_input)).
Defined.

(** ** Tables that [process_data] rejects *)

Lemma for_each_app {A S} (l1 l2 : list A) (body : S -> A -> M S) (s : S)
    (tr : trace) :
  for_each (l1 ++ l2) body s tr
  = match for_each l1 body s tr with
    | (Ok s', tr') => for_each l2 body s' tr'
    | (Raise e, tr') => (Raise e, tr')
    end.
Proof.
  revert s tr. induction l1 as [|x l1 IH]; intros s tr; [done|].
  simpl. unfold bind. destruct (body s x tr) as [[s'|e] tr']; [apply IH|done].
Qed.

Lemma cell_is_Some (df : DataFrame) (i : nat) (c : pystr) :
  frame_ok df -> c ∈ columns df -> (i < length (rows df))%nat ->
  is_Some (cell df i c).
Proof.
  intros Hok Hin Hi. apply col_index_is_Some in Hin as [j Hj].
  destruct (lookup_lt_is_Some_2 _ _ Hi) as [row Hrow].
  unfold cell, row_cell. rewrite Hrow. simpl. rewrite Hj. simpl.
  apply lookup_lt_is_Some_2. rewrite (frame_ok_lookup _ _ _ Hok Hrow).
  by apply col_index_Some, lookup_lt_Some in Hj.
Qed.

Section Errors.

Variable geolocator : trace -> pystr -> reply.
Variable geodesic : Coords -> Coords -> Q.
Variable round2 : pyfloat -> pyfloat.

Lemma geocode_row_KeyError_name (cols : list pystr) (df : DataFrame)
    (i : nat) (row : list value) (tr : trace) :
  col_name ∉ cols ->
  geocode_row geolocator cols df (i, row) tr = (Raise (KeyError col_name), tr).
Proof.
  intros Hcol. apply col_index_None in Hcol.
  unfold geocode_row, row_get, row_cell, bind. by rewrite Hcol.
Qed.

Lemma geocode_row_KeyError_address (cols : list pystr) (df : DataFrame)
    (i : nat) (row : list value) (tr : trace) :
  is_Some (row_cell cols row col_name) -> col_address ∉ cols ->
  geocode_row geolocator cols df (i, row) tr
  = (Raise (KeyError col_address), tr).
Proof.
  intros [name Hname] Hcol. apply col_index_None in Hcol.
  unfold geocode_row, row_get, bind. rewrite Hname.
  unfold row_cell. by rewrite Hcol.
Qed.

Lemma geocode_row_TypeError (cols : list pystr) (df : DataFrame)
    (i : nat) (row : list value) (v : value) (tr : trace) :
  is_Some (row_cell cols row col_name) ->
  row_cell cols row col_address = Some v ->
  (forall a, v <> VStr a) ->
  geocode_row geolocator cols df (i, row) tr = (Raise TypeError, tr).
Proof.
  intros [name Hname] Haddr Hv.
  unfold geocode_row, row_get, bind. rewrite Hname, Haddr.
  destruct v; try done. by destruct (Hv s).
Qed.

Lemma process_data_KeyError (input_df : DataFrame)
    (temple_list_df : list Temple) (tr : trace) :
  rows input_df <> [] ->
  (col_name ∉ columns input_df ->
   process_data geolocator geodesic round2 input_df temple_list_df tr
   = (Raise (KeyError col_name), tr))
  /\ (frame_ok input_df ->
      col_name ∈ columns input_df -> col_address ∉ columns input_df ->
      process_data geolocator geodesic round2 input_df temple_list_df tr
      = (Raise (KeyError col_address), tr)).
Proof.
  intros Hrows.
  pose (dfa := set_column input_df col_search_address VNone).
  pose (df0 := set_column dfa col_coords VNone).
  assert (forall c, c <> col_search_address -> c <> col_coords ->
                    c ∈ columns df0 <-> c ∈ columns input_df) as Hcols.
  { intros c Hs Hc. unfold df0, dfa.
    rewrite !elem_of_columns_set_column.
    split; [by intros [[?|?]|?]|]. intros ?. by do 2 left. }
  assert (exists row rest, iterrows df0 = (0%nat, row) :: rest
                           /\ rows df0 !! 0%nat = Some row)
    as (row & rest & Hitems & Hrow).
  { unfold iterrows, enumerate.
    destruct (rows df0) as [|row rest] eqn:E; [|by eexists _, _].
    apply (f_equal length) in E. unfold df0, dfa in E.
    rewrite !length_rows_set_column in E.
    by destruct (rows input_df). }
  split.
  - intros Hname. unfold process_data. cbv zeta. fold dfa. fold df0.
    unfold bind at 1. rewrite Hitems. cbn [for_each]. unfold bind at 1.
    rewrite geocode_row_KeyError_name; [done|]. by rewrite Hcols.
  - intros Hok Hname Haddr.
    unfold process_data. cbv zeta. fold dfa. fold df0.
    unfold bind at 1. rewrite Hitems. cbn [for_each]. unfold bind at 1.
    rewrite geocode_row_KeyError_address; [done| |by rewrite Hcols].
    rewrite <- (cell_row_cell df0 0 row) by done.
    apply cell_is_Some.
    + unfold df0, dfa. by do 2 apply frame_ok_set_column.
    + by rewrite Hcols.
    + by apply lookup_lt_Some in Hrow.
Qed.

Lemma process_data_TypeError (input_df : DataFrame)
    (temple_list_df : list Temple) (tr : trace) (k : nat) (v : value) :
  frame_ok input_df ->
  col_name ∈ columns input_df ->
  cell input_df k col_address = Some v ->
  (forall a, v <> VStr a) ->
  (forall j, (j < k)%nat ->
             exists a, cell input_df j col_address = Some (VStr a)) ->
  process_data geolocator geodesic round2 input_df temple_list_df tr
  = (Raise TypeError,
     geocoded_trace geolocator (take k (addresses input_df)) tr).
Proof.
  intros Hok Hname Hv Hbad Hbefore.
  pose (dfa := set_column input_df col_search_address VNone).
  pose (df0 := set_column dfa col_coords VNone).
  assert (frame_ok df0) as Hok0
    by (unfold df0, dfa; by do 2 apply frame_ok_set_column).
  assert (length (rows df0) = length (rows input_df)) as Hlen0
    by (unfold df0, dfa; by rewrite !length_rows_set_column).
  assert (forall i c, c <> col_search_address -> c <> col_coords ->
                      cell df0 i c = cell input_df i c) as Hcell0.
  { intros i c Hs Hc. unfold df0.
    rewrite cell_set_column, decide_False
      by (done || by apply frame_ok_set_column).
    unfold dfa. by rewrite cell_set_column, decide_False by done. }
  assert (col_search_address ∈ columns df0) as Hs0.
  { unfold df0, dfa. rewrite !elem_of_columns_set_column. auto. }
  assert (col_coords ∈ columns df0) as Hc0.
  { unfold df0. rewrite elem_of_columns_set_column. auto. }
  assert (col_name ∈ columns df0) as Hn0.
  { unfold df0, dfa. rewrite !elem_of_columns_set_column. auto. }
  assert (forall i row, rows df0 !! i = Some row ->
                        is_Some (row_cell (columns df0) row col_name))
    as Hnames.
  { intros i row Hrow. rewrite <- (cell_row_cell df0 i row) by done.
    apply cell_is_Some; [done..|]. by apply lookup_lt_Some in Hrow. }
  assert (k < length (rows input_df))%nat as Hk.
  { unfold cell in Hv. destruct (rows input_df !! k) eqn:E; [|done].
    by apply lookup_lt_Some in E. }
  destruct (lookup_lt_is_Some_2 (rows df0) k) as [row_k Hrow_k];
    [by rewrite Hlen0|].
  assert (Forall2 (fun item a =>
             is_Some (row_cell (columns df0) item.2 col_name)
             /\ row_cell (columns df0) item.2 col_address = Some (VStr a))
            (take k (iterrows df0)) (take k (addresses input_df))) as HF.
  { apply Forall2_same_length_lookup_2.
    - rewrite !length_take. unfold iterrows, enumerate, addresses.
      by rewrite length_imap, length_fmap, Hlen0.
    - intros j [i row] a Hj Ha.
      apply lookup_take_Some in Hj as [Hj Hjk].
      apply lookup_take_Some in Ha as [Ha _].
      apply lookup_iterrows in Hj as [-> Hrow]. simpl.
      split; [by apply (Hnames j)|].
      destruct (Hbefore j Hjk) as [a' Ha'].
      rewrite <- (cell_row_cell df0 j row), Hcell0 by done.
      unfold addresses in Ha. rewrite list_lookup_fmap in Ha.
      apply fmap_Some in Ha as (row_in & Hrow_in & ->).
      unfold address_of.
      rewrite <- (cell_row_cell input_df j row_in) by done.
      by rewrite Ha'. }
  assert (NoDup (take k (iterrows df0)).*1) as Hnodup.
  { rewrite fmap_take. eapply sublist_NoDup; [apply NoDup_iterrows|].
    apply sublist_take. }
  assert (Forall (fun item => (item.1 < length (rows df0))%nat)
                 (take k (iterrows df0))) as Hlt.
  { apply Forall_take, Forall_lookup_2. intros j [i row] Hj.
    apply lookup_iterrows in Hj as [-> Hrow]. simpl.
    by apply lookup_lt_Some in Hrow. }
  destruct (geocode_loop_run geolocator (columns df0) _ _ HF Hnodup df0 tr
              Hok0 Hs0 Hc0 Hlt) as (df1 & Hloop & _).
  unfold process_data. cbv zeta. fold dfa. fold df0. unfold bind at 1.
  rewrite <- (take_drop_middle (iterrows df0) k (k, row_k))
    by (by apply lookup_iterrows).
  rewrite for_each_app, Hloop. cbn [for_each]. unfold bind at 1.
  rewrite (geocode_row_TypeError _ _ _ _ v); [done| by apply (Hnames k) | |done].
  by rewrite <- (cell_row_cell df0 k row_k), Hcell0.
Qed.

(** X7.  On a table that has rows but lacks the column of the names,
    [process_data] raises [KeyError] for that column; on one that has the
    names but lacks the column of the addresses, it raises [KeyError] for
    the addresses.  In both cases nothing has been sent to the service. *)
Theorem process_data_missing_column (input_df : DataFrame)
    (temple_list_df : list Temple) (tr : trace) :
  rows input_df <> [] ->
  (col_name ∉ columns input_df ->
   process_data geolocator geodesic round2 input_df temple_list_df tr
   = (Raise (KeyError col_name), tr))
  /\ (frame_ok input_df ->
      col_name ∈ columns input_df -> col_address ∉ columns input_df ->
      process_data geolocator geodesic round2 input_df temple_list_df tr
      = (Raise (KeyError col_address), tr)).
Proof. apply process_data_KeyError. Qed.

(** X8.  When the address of row [k] is not a string (an empty cell, a
    number) while the rows before it hold strings, [process_data] raises
    [TypeError] on reaching that row: the rows before it have been geocoded,
    the rows after it are not, and no table is returned. *)
Theorem process_data_bad_address (input_df : DataFrame)
    (temple_list_df : list Temple) (tr : trace) (k : nat) (v : value) :
  frame_ok input_df ->
  col_name ∈ columns input_df ->
  cell input_df k col_address = Some v ->
  (forall a, v <> VStr a) ->
  (forall j, (j < k)%nat ->
             exists a, cell input_df j col_address = Some (VStr a)) ->
  process_data geolocator geodesic round2 input_df temple_list_df tr
  = (Raise TypeError,
     geocoded_trace geolocator (take k (addresses input_df)) tr).
Proof. apply process_data_TypeError. Qed.

End Errors.

Lemma process_data_missing_column_witness :
  process_data no_match_service taxicab
        round_hundredths nameless_input [temple_1] []
  = (Raise (KeyError col_name), [])
  /\ process_data no_match_service taxicab
        round_hundredths addressless_input [temple_1] []
     = (Raise (KeyError col_address), []).
Proof.
  split.
  - apply (process_data_missing_column no_match_service taxicab round_hundredths
             nameless_input [temple_1] []); [done|].
    intros H. apply list_elem_of_singleton in H. discriminate H.
  - apply (process_data_missing_column no_match_service taxicab round_hundredths
             addressless_input [temple_1] []); [done| | |].
    + by repeat constructor.
    + by left.
    + intros H. apply list_elem_of_singleton in H. discriminate H.
Defined.

Lemma process_data_bad_address_witness :
  process_data no_match_service taxicab round_hundredths gap_input [temple_1] []
  = (Raise TypeError,
     geocoded_trace no_match_service (take 1 (addresses gap_input)) [])
  /\ requests (geocoded_trace no_match_service
                 (take 1 (addresses gap_input)) [])
     = [ py "熊本県熊本市中央区坪井"; py "熊本県熊本市中央区" ].
Proof.
  split; [|reflexivity].
  apply (process_data_bad_address no_match_service taxicab
        round_hundredths gap_input
           [temple_1] [] 1%nat VNaN).
  - by repeat constructor.
  - by left.
  - reflexivity.
  - intros a. discriminate.
  - intros j Hj. destruct j as [|j]; [|lia]. by eexists.
Defined.

(** ** More on the nearest temple *)

(** X9.  [find_nearest_temple] returns a temple exactly when it is given a
    point and some temple of the catalog has a coordinate; the temple then
    comes with a finite distance, and without temple there is no distance:
    the two results are present or absent together. *)
Theorem find_nearest_temple_found (geodesic : Coords -> Coords -> Q)
    (input_coords : option Coords) (temple_df : list Temple) :
  let r := fst (find_nearest_temple geodesic input_coords temple_df) in
  (is_Some (fst r) <->
   is_Some input_coords
   /\ exists t, t ∈ temple_df /\ is_Some (temple_coords t))
  /\ (fst r = None -> snd r = None)
  /\ (is_Some (fst r) -> exists d : Q, snd r = Some (Finite d)).
Proof.
  intros r.
  destruct (find_nearest_temple_cases geodesic input_coords temple_df)
    as [[Hr Hwhy]|(p & i & t & c & -> & Hr & Ht & Hc & _)];
    fold r in Hr; rewrite Hr; simpl.
  - split; [|split; [done|by intros [? ?]]].
    split; [by intros [? ?]|]. intros [[p Hp] (t & Hin & [c Hc])].
    destruct Hwhy as [->|Hnone]; [done|].
    rewrite (Hnone t Hin) in Hc. done.
  - split; [|split; [done|by eauto]].
    split; [|by eauto]. intros _. split; [by eauto|].
    exists t. split; [by eapply list_elem_of_lookup_2|by eauto].
Qed.

(** X10.  A catalog that holds all the temples of another one, and maybe
    more, gives a distance that is not larger. *)
Theorem find_nearest_temple_more_temples (geodesic : Coords -> Coords -> Q)
    (p : Coords) (l l' : list Temple) (d : Q) :
  l ⊆ l' ->
  snd (fst (find_nearest_temple geodesic (Some p) l)) = Some (Finite d) ->
  exists d',
    snd (fst (find_nearest_temple geodesic (Some p) l')) = Some (Finite d')
    /\ (d' <= d)%Q.
Proof.
  intros Hsub Hd.
  destruct (find_nearest_temple_cases geodesic (Some p) l)
    as [[Hr _]|(p1 & i & t & c & [= <-] & Hr & Ht & Hc & _)];
    cbv zeta in Hr; rewrite Hr in Hd; [done|].
  injection Hd as <-.
  assert (t ∈ l') as Hin by (by eapply Hsub, list_elem_of_lookup_2).
  destruct (find_nearest_temple_cases geodesic (Some p) l')
    as [[_ [?|Hnone]]|(p2 & i' & t' & c' & [= <-] & Hr' & _ & _ & Hle & _)];
    [done| |].
  - rewrite (Hnone t Hin) in Hc. done.
  - cbv zeta in Hr'. rewrite Hr'. eexists. split; [done|]. by eapply Hle.
Qed.

Lemma find_nearest_temple_more_temples_witness :
  exists d',
    snd (fst (find_nearest_temple taxicab (Some (1, 1)%Q)
                [temple_1; temple_2]))
    = Some (Finite d')
    /\ (d' <= taxicab (1, 1)%Q (1, 4)%Q)%Q.
Proof.
  apply (find_nearest_temple_more_temples taxicab (1, 1)%Q [temple_2]
           [temple_1; temple_2]).
  - intros t Ht. apply list_elem_of_singleton in Ht as ->. right. left.
  - reflexivity.
Defined.

(** X11.  The distance that [find_nearest_temple] returns does not depend
    on the order of the catalog: on two catalogs with the same temples it
    is absent for both, or it has the same value for both. *)
Theorem find_nearest_temple_order (geodesic : Coords -> Coords -> Q)
    (input_coords : option Coords) (l l' : list Temple) :
  l ≡ₚ l' ->
  match snd (fst (find_nearest_temple geodesic input_coords l)),
        snd (fst (find_nearest_temple geodesic input_coords l')) with
  | Some (Finite d), Some (Finite d') => (d == d')%Q
  | None, None => True
  | _, _ => False
  end.
Proof.
  intros Hperm.
  assert (forall t, t ∈ l <-> t ∈ l') as Hin by (intros t; by rewrite Hperm).
  destruct (find_nearest_temple_cases geodesic input_coords l)
    as [[Hr Hwhy]|(p & i & t & c & Hp & Hr & Ht & Hc & Hle & _)];
    destruct (find_nearest_temple_cases geodesic input_coords l')
      as [[Hr' Hwhy']|(p' & i' & t' & c' & Hp' & Hr' & Ht' & Hc' & Hle' & _)];
    cbv zeta in Hr, Hr'; rewrite Hr, Hr'; simpl.
  - done.
  - apply list_elem_of_lookup_2, Hin in Ht'.
    destruct Hwhy as [->|Hnone]; [done|].
    rewrite (Hnone t' Ht') in Hc'. done.
  - apply list_elem_of_lookup_2, Hin in Ht.
    destruct Hwhy' as [->|Hnone]; [done|].
    rewrite (Hnone t Ht) in Hc. done.
  - assert (p' = p) as -> by congruence.
    apply list_elem_of_lookup_2 in Ht, Ht'.
    apply Qle_antisym.
    + apply (Hle t' c'); [by apply Hin|done].
    + apply (Hle' t c); [by apply Hin|done].
Qed.

Lemma find_nearest_temple_order_witness :
  match snd (fst (find_nearest_temple taxicab (Some (1, 1)%Q)
                    [temple_1; temple_nowhere; temple_2])),
        snd (fst (find_nearest_temple taxicab (Some (1, 1)%Q)
                    [temple_nowhere; temple_1; temple_2])) with
  | Some (Finite d), Some (Finite d') => (d == d')%Q
  | None, None => True
  | _, _ => False
  end.
Proof.
  apply (find_nearest_temple_order taxicab (Some (1, 1)%Q)
           [temple_1; temple_nowhere; temple_2]
           [temple_nowhere; temple_1; temple_2]).
  apply Permutation_swap.
Defined.

(** ** The returned table *)

Section Result.

Variable geolocator : trace -> pystr -> reply.
Variable geodesic : Coords -> Coords -> Q.
Variable round2 : pyfloat -> pyfloat.

(** X12.  The table that [process_data] returns has the columns of the
    input, then those of the two geocoding columns that the input lacked,
    then the five match columns; on an input without rows the match columns
    are missing. *)
Theorem process_data_columns (input_df : DataFrame)
    (temple_list_df : list Temple) (tr : trace) :
  wf_input input_df ->
  exists input_df' result_df tr',
    process_data geolocator geodesic round2 input_df temple_list_df tr
    = (Ok (input_df', result_df), tr')
    /\ columns result_df
       = columns input_df
         ++ filter (fun c => c ∉ columns input_df)
                   [col_search_address; col_coords]
         ++ match rows input_df with
            | [] => []
            | _ :: _ => match_columns
            end.
Proof.
  intros Hwf.
  destruct (process_data_run geolocator geodesic round2 input_df temple_list_df
              tr Hwf)
    as (input_df' & result_df & Hrun & Hcols & _).
  destruct (process_data_result_columns geolocator geodesic round2 input_df
              temple_list_df tr Hwf)
    as (input_df2 & result_df2 & Hrun2 & Hcols2).
  rewrite Hrun in Hrun2. injection Hrun2 as <- <-.
  eexists input_df', result_df, _. split; [exact Hrun|].
  by rewrite Hcols2, Hcols, columns_added, <- app_assoc.
Qed.

(** X13.  When some temple of the catalog has a coordinate, every row of
    the returned table that holds a coordinate holds, in its last five
    cells, the name, the addresses and the coordinate of a temple of the
    catalog that no other temple beats in distance, and [round(d, 2)] for
    the distance [d] to that temple. *)
Theorem process_data_located_row (input_df : DataFrame)
    (temple_list_df : list Temple) (tr : trace) :
  wf_input input_df ->
  (exists t, t ∈ temple_list_df /\ is_Some (temple_coords t)) ->
  exists input_df' result_df tr',
    process_data geolocator geodesic round2 input_df temple_list_df tr
    = (Ok (input_df', result_df), tr')
    /\ forall i c row,
         cell result_df i col_coords = Some (VCoords c) ->
         rows input_df' !! i = Some row ->
         exists (t : Temple) (ct : Coords),
           t ∈ temple_list_df
           /\ temple_coords t = Some ct
           /\ (forall t' c',
                 t' ∈ temple_list_df -> temple_coords t' = Some c' ->
                 (geodesic c ct <= geodesic c c')%Q)
           /\ rows result_df !! i
              = Some (row ++ [ VStr (temple_name t);
                               VStr (temple_address t);
                               VStr (temple_search_address t);
                               VCoords ct;
                               VFloat (round2 (Finite (geodesic c ct))) ]).
Proof.
  intros Hwf (t0 & Hin0 & [c0 Hc0]).
  destruct (process_data_run geolocator geodesic round2 input_df temple_list_df
              tr Hwf)
    as (input_df' & result_df & Hrun & Hcols & _ & _ & _ & _ & _
        & Hleft & Hright).
  eexists input_df', result_df, _. split; [exact Hrun|].
  intros i c row Hcell Hrow.
  rewrite Hleft in Hcell
    by (rewrite Hcols, elem_of_columns_set_column; auto).
  rewrite (Hright i row Hrow), Hcell. simpl.
  unfold result_values, has_match, match_values.
  destruct (find_nearest_temple_cases geodesic (Some c) temple_list_df)
    as [[_ [?|Hnone]]|(p & j & t & ct & [= <-] & Hr & Ht & Hct & Hle & _)];
    [done| |].
  - rewrite (Hnone t0 Hin0) in Hc0. done.
  - cbv zeta in Hr. rewrite Hr.
    exists t, ct. rewrite Hct. simpl.
    split; [by eapply list_elem_of_lookup_2|]. by repeat split.
Qed.

End Result.

(** ** The script around the batch *)

Section Script.

Variable geolocator : trace -> pystr -> reply.
Variable geodesic : Coords -> Coords -> Q.
Variable round2 : pyfloat -> pyfloat.

(** X14.  The column check of the script is what [process_data] needs on
    a table with rows: when the check finds no missing column,
    [process_data] raises no [KeyError]; when it finds some, [process_data]
    would raise [KeyError] for the first of them, before any request. *)
Theorem missing_columns_guard (input_df : DataFrame)
    (temple_list_df : list Temple) (tr : trace) :
  frame_ok input_df -> NoDup (columns input_df) -> rows input_df <> [] ->
  match missing_columns input_df with
  | [] =>
    forall c,
      fst (process_data geolocator geodesic round2 input_df temple_list_df tr)
      <> Raise (KeyError c)
  | c :: _ =>
    process_data geolocator geodesic round2 input_df temple_list_df tr
    = (Raise (KeyError c), tr)
  end.
Proof.
  intros Hok Hnodup Hrows.
  destruct (process_data_KeyError geolocator geodesic round2 input_df
              temple_list_df tr Hrows) as [Hname Haddr].
  unfold missing_columns, required_columns.
  destruct (decide (col_name ∈ columns input_df)) as [Hn|Hn];
    [|rewrite filter_cons_True by done; by apply Hname].
  rewrite filter_cons_False by (by intros ?).
  destruct (decide (col_address ∈ columns input_df)) as [Ha|Ha];
    [|rewrite filter_cons_True by done; by apply Haddr].
  rewrite filter_cons_False, filter_nil by (by intros ?).
  intros c.
  destruct (list_find (fun row => has_address (columns input_df) row = false)
                      (rows input_df)) as [[k row]|] eqn:E.
  - apply list_find_Some in E as (Hrow & Hbad & Hbefore).
    destruct (cell_is_Some input_df k col_address Hok Ha) as [v Hv];
      [by apply lookup_lt_Some in Hrow|].
    rewrite (process_data_TypeError geolocator geodesic round2 input_df
               temple_list_df tr k v); [done..| |].
    + intros a ->. rewrite (cell_row_cell _ _ _ _ Hrow) in Hv.
      unfold has_address in Hbad. by rewrite Hv in Hbad.
    + intros j Hj.
      destruct (lookup_lt_is_Some_2 (rows input_df) j) as [row_j Hrow_j];
        [apply lookup_lt_Some in Hrow; lia|].
      specialize (Hbefore j row_j Hrow_j Hj).
      rewrite (cell_row_cell _ _ _ _ Hrow_j).
      unfold has_address in Hbefore.
      destruct (row_cell _ row_j col_address) as [[| |a| |]|]; try done.
      by exists a.
  - apply list_find_None in E.
    assert (wf_input input_df) as Hwf.
    { split; [done|]. split; [done|]. intros i Hi.
      split; [by apply cell_is_Some|].
      destruct (lookup_lt_is_Some_2 _ _ Hi) as [row Hrow].
      rewrite (cell_row_cell _ _ _ _ Hrow).
      eapply Forall_lookup_1 in E; [|exact Hrow]. simpl in E.
      unfold has_address in E.
      destruct (row_cell _ row col_address) as [[| |a| |]|]; try done.
      by exists a. }
    destruct (process_data_run geolocator geodesic round2 input_df temple_list_df
                tr Hwf) as (input_df' & result_df & -> & _).
    done.
Qed.

(** X15.  After a run of [process_data] on a table without rows, the
    summary of the script fails: the returned table has no distance column,
    and reading it raises [KeyError]. *)
Theorem summary_of_empty_table (input_df : DataFrame)
    (temple_list_df : list Temple) (tr : trace) :
  wf_input input_df ->
  rows input_df = [] ->
  col_distance ∉ columns input_df ->
  exists input_df' result_df,
    process_data geolocator geodesic round2 input_df temple_list_df tr
    = (Ok (input_df', result_df), tr)
    /\ rows result_df = []
    /\ valid_distances result_df tr = (Raise (KeyError col_distance), tr).
Proof.
  intros Hwf Hrows Hcol.
  destruct (process_data_run geolocator geodesic round2 input_df temple_list_df
              tr Hwf)
    as (input_df' & result_df & Hrun & Hcols & _ & _ & _ & _ & Hlen & _).
  destruct (process_data_result_columns geolocator geodesic round2 input_df
              temple_list_df tr Hwf)
    as (input_df2 & result_df2 & Hrun2 & Hcols2).
  rewrite Hrun in Hrun2. injection Hrun2 as <- <-.
  exists input_df', result_df.
  unfold addresses in Hrun. rewrite Hrows in *. simpl in Hrun.
  split; [exact Hrun|]. split; [by apply length_zero_iff_nil|].
  unfold valid_distances, getitem, bind.
  assert (col_index (columns result_df) col_distance = None) as ->; [|done].
  apply col_index_None. rewrite Hcols2, app_nil_r, Hcols.
  rewrite !elem_of_columns_set_column. by intros [[?|?]|?].
Qed.

Lemma col_index_app_r (cols more : list pystr) (col : pystr) :
  col ∉ cols ->
  col_index (cols ++ more) col
  = (fun j => (j + length cols)%nat) <$> col_index more col.
Proof.
  intros Hnew. apply col_index_None in Hnew. unfold col_index in *.
  apply fmap_None in Hnew. rewrite list_find_app_r by done.
  by destruct (list_find _ more) as [[j c]|].
Qed.

Lemma count_split (g : list value -> list value) (jd jc : nat)
    (l : list (list value)) :
  Forall (fun row => isna (default VNaN (g row !! jd))
                     = isna (default VNaN (g row !! jc))) l ->
  (length (filter (fun v => isna v = false)
             ((fun row => default VNaN (row !! jd)) <$> (g <$> l)))
   + length (filter (fun rc : list value * value => isna rc.2 = true)
               (zip (g <$> l)
                    ((fun row => default VNaN (row !! jc)) <$> (g <$> l)))))%nat
  = length l.
Proof.
  induction 1 as [|row l Hrow _ IH]; [done|].
  rewrite !fmap_cons. cbn [zip zip_with].
  rewrite !filter_cons. cbn [snd]. rewrite Hrow.
  destruct (isna (default VNaN (g row !! jc)));
    repeat case_decide; try done; simpl; lia.
Qed.

(** X16.  After a run of [process_data] on a table with rows and a catalog
    in which some temple has a coordinate, the summary of the script counts
    every row once: the rows with a distance and the rows whose geocoding
    failed are together all the rows. *)
Theorem summary_counts (input_df : DataFrame)
    (temple_list_df : list Temple) (tr : trace) :
  wf_input input_df ->
  rows input_df <> [] ->
  col_distance ∉ columns input_df ->
  (exists t, t ∈ temple_list_df /\ is_Some (temple_coords t)) ->
  exists input_df' result_df tr' distances failed,
    process_data geolocator geodesic round2 input_df temple_list_df tr
    = (Ok (input_df', result_df), tr')
    /\ valid_distances result_df tr' = (Ok distances, tr')
    /\ failed_geocoding result_df tr' = (Ok failed, tr')
    /\ (length distances + length failed)%nat = length (rows input_df).
Proof.
  intros Hwf Hrows Hcol (t0 & Hin0 & [c0 Hc0]).
  destruct (process_data_run geolocator geodesic round2 input_df temple_list_df
              tr Hwf)
    as (input_df' & result_df & Hrun & Hcols & Hlen & Hok' & _ & Hrow
        & Hlenres & _ & Hright).
  destruct (process_data_result_columns geolocator geodesic round2 input_df
              temple_list_df tr Hwf)
    as (input_df2 & result_df2 & Hrun2 & Hcols2).
  rewrite Hrun in Hrun2. injection Hrun2 as <- <-.
  assert (columns result_df = columns input_df' ++ match_columns) as Hres
    by (rewrite Hcols2; by destruct (rows input_df)).
  destruct (col_index_is_Some (columns input_df') col_coords) as [jc Hjc].
  { rewrite Hcols, elem_of_columns_set_column. auto. }
  assert (col_index (columns result_df) col_coords = Some jc) as Hjc2
    by (rewrite Hres; by apply col_index_app_l).
  assert (col_index (columns result_df) col_distance
          = Some (4 + length (columns input_df'))%nat) as Hjd.
  { rewrite Hres, col_index_app_r; [done|].
    rewrite Hcols, !elem_of_columns_set_column. by intros [[?|?]|?]. }
  pose (g := fun row : list value =>
               row ++ result_values geodesic round2 temple_list_df
                        (float_distances geodesic temple_list_df input_df')
                        (coords_of (row_cell (columns input_df') row
                                             col_coords))).
  assert (rows result_df = g <$> rows input_df') as HR.
  { apply list_eq. intros i. rewrite list_lookup_fmap.
    destruct (rows input_df' !! i) as [row|] eqn:E; simpl.
    - rewrite (Hright i row E). by rewrite (cell_row_cell input_df' i row).
    - apply lookup_ge_None. apply lookup_ge_None in E. lia. }
  assert (Forall (fun row =>
            isna (default VNaN
                    (g row !! (4 + length (columns input_df'))%nat))
            = isna (default VNaN (g row !! jc))) (rows input_df')) as HG.
  { apply Forall_lookup_2. intros i row Hi.
    pose proof (frame_ok_lookup _ _ _ Hok' Hi) as Hlenrow.
    destruct (proj2 (proj2 Hwf) i) as [_ [a Ha]];
      [rewrite <- Hlen; by apply lookup_lt_Some in Hi|].
    destruct (Hrow i a Ha) as (s & oc & _ & _ & Hcell).
    rewrite (cell_row_cell input_df' i row _ Hi) in Hcell.
    unfold g. rewrite Hcell.
    rewrite lookup_app_r by lia.
    replace (4 + length (columns input_df') - length row)%nat with 4%nat
      by lia.
    unfold row_cell in Hcell. rewrite Hjc in Hcell. simpl in Hcell.
    rewrite (lookup_app_l_Some _ _ _ _ Hcell). simpl.
    destruct oc as [c|]; [|by destruct (float_distances _ _ _)]. simpl.
    unfold result_values, has_match, match_values.
    destruct (find_nearest_temple_cases geodesic (Some c) temple_list_df)
      as [[_ [?|Hnone]]|(p & j & t & ct & _ & Hr & _)]; [done| |].
    - rewrite (Hnone t0 Hin0) in Hc0. done.
    - cbv zeta in Hr. by rewrite Hr. }
  eexists input_df', result_df, _, _, _. split; [exact Hrun|].
  unfold valid_distances, failed_geocoding, getitem, bind, ret.
  rewrite Hjd, Hjc2. split; [done|]. split; [done|].
  rewrite length_fmap, HR, (count_split g _ _ _ HG). done.
Qed.

End Script.

(** ** The further properties on the sample tables *)

Lemma wf_empty_input : wf_input empty_input.
Proof.
  split; [|split].
  - apply (bool_decide_unpack _). by vm_compute.
  - constructor.
  - intros i Hi. simpl in Hi. lia.
Qed.

Lemma sample_catalog_located :
  exists t, t ∈ [temple_1; temple_2] /\ is_Some (temple_coords t).
Proof. exists temple_1. split; [left|by eexists]. Qed.

Lemma process_data_columns_witness :
  wf_input empty_input
  /\ exists input_df' result_df tr',
      process_data no_match_service taxicab
            round_hundredths empty_input [temple_1] []
      = (Ok (input_df', result_df), tr')
      /\ columns result_df
         = columns empty_input
           ++ filter (fun c => c ∉ columns empty_input)
                     [col_search_address; col_coords]
           ++ match rows empty_input with
              | [] => []
              | _ :: _ => match_columns
              end.
Proof.
  split; [exact wf_empty_input|].
  exact (process_data_columns no_match_service taxicab
        round_hundredths empty_input
           [temple_1] [] wf_empty_input).
Defined.

Lemma process_data_located_row_witness :
  wf_input sample_input
  /\ exists input_df' result_df tr',
      process_data second_request_service taxicab round_hundredths
                   sample_input [temple_1; temple_2] []
      = (Ok (input_df', result_df), tr')
      /\ forall i c row,
           cell result_df i col_coords = Some (VCoords c) ->
           rows input_df' !! i = Some row ->
           exists (t : Temple) (ct : Coords),
             t ∈ [temple_1; temple_2]
             /\ temple_coords t = Some ct
             /\ (forall t' c',
                   t' ∈ [temple_1; temple_2] -> temple_coords t' = Some c' ->
                   (taxicab c ct <= taxicab c c')%Q)
             /\ rows result_df !! i
                = Some (row ++ [ VStr (temple_name t);
                                 VStr (temple_address t);
                                 VStr (temple_search_address t);
                                 VCoords ct;
                                 VFloat (round_hundredths
                                           (Finite (taxicab c ct))) ]).
Proof.
  split; [exact wf_sample_input|].
  exact (process_data_located_row second_request_service taxicab
           round_hundredths sample_input [temple_1; temple_2] []
           wf_sample_input sample_catalog_located).
Defined.

Lemma missing_columns_guard_witness :
  process_data no_match_service taxicab
        round_hundredths nameless_input [temple_1] []
  = (Raise (KeyError col_name), [])
  /\ forall c,
       fst (process_data no_match_service taxicab
             round_hundredths gap_input [temple_1] [])
       <> Raise (KeyError c).
Proof.
  split.
  - apply (missing_columns_guard no_match_service taxicab
        round_hundredths nameless_input
             [temple_1] []).
    + by repeat constructor.
    + apply (bool_decide_unpack _). by vm_compute.
    + done.
  - apply (missing_columns_guard no_match_service taxicab
        round_hundredths gap_input
             [temple_1] []).
    + by repeat constructor.
    + apply (bool_decide_unpack _). by vm_compute.
    + done.
Defined.

Lemma summary_of_empty_table_witness :
  exists input_df' result_df,
    process_data no_match_service taxicab
          round_hundredths empty_input [temple_1] []
    = (Ok (input_df', result_df), [])
    /\ rows result_df = []
    /\ valid_distances result_df [] = (Raise (KeyError col_distance), []).
Proof.
  apply (summary_of_empty_table no_match_service taxicab
        round_hundredths empty_input
           [temple_1] [] wf_empty_input eq_refl).
  apply (bool_decide_unpack _). by vm_compute.
Defined.

Lemma summary_counts_witness :
  exists input_df' result_df tr' distances failed,
    process_data second_request_service taxicab round_hundredths sample_input
                 [temple_1; temple_2] []
    = (Ok (input_df', result_df), tr')
    /\ valid_distances result_df tr' = (Ok distances, tr')
    /\ failed_geocoding result_df tr' = (Ok failed, tr')
    /\ (length distances + length failed)%nat = length (rows sample_input).
Proof.
  apply (summary_counts second_request_service taxicab
        round_hundredths sample_input
           [temple_1; temple_2] [] wf_sample_input).
  - done.
  - apply (bool_decide_unpack _). by vm_compute.
  - exact sample_catalog_located.
Defined.

(** The summary on the sample run: one distance, one failed row. *)
Example summary_sample :
  exists input_df' result_df tr',
    process_data second_request_service taxicab round_hundredths sample_input
                 [temple_1; temple_2] []
    = (Ok (input_df', result_df), tr')
    /\ valid_distances result_df tr'
       = (Ok [VFloat (Finite (200 # 100))], tr')
    /\ failed_geocoding result_df tr'
       = (Ok [ [ VStr (py "B"); VStr address_B;
                 VStr (py "愛知県豊明市沓掛町山新田");
                 VNone; VNone; VNone; VNone; VNone; VNaN ] ], tr').
Proof.
  do 3 eexists. split; [by vm_compute|]. by vm_compute.
Qed.

(** X17.  In the returned table the search address and the coordinate of
    a row follow the replies of the service to the requests for that row.
    When the service locates the search address (the part of the address
    before the first digit), the row holds that search address and the
    coordinate of the reply.  When it finds no match for it and locates the
    fallback address, the row holds the fallback address and the coordinate
    of that second reply.  In every other case (an error on the first
    request, or no location for the fallback address) the row holds the
    search address and no coordinate. *)
Theorem process_data_search_address (geolocator : trace -> pystr -> reply)
    (geodesic : Coords -> Coords -> Q) (round2 : pyfloat -> pyfloat)
    (input_df : DataFrame) (temple_list_df : list Temple) (tr : trace) :
  wf_input input_df ->
  exists input_df' result_df tr',
    process_data geolocator geodesic round2 input_df temple_list_df tr
    = (Ok (input_df', result_df), tr')
    /\ forall i a,
         cell input_df i col_address = Some (VStr a) ->
         let s := search_address a in
         let s2 := simplified_address s in
         let tr_i :=
           geocoded_trace geolocator (take i (addresses input_df)) tr in
         match geolocator (tr_i ++ [Sleep 1]) s with
         | Location c =>
           cell result_df i col_search_address = Some (VStr s)
           /\ cell result_df i col_coords = Some (VCoords c)
         | Failure =>
           cell result_df i col_search_address = Some (VStr s)
           /\ cell result_df i col_coords = Some VNone
         | NoMatch =>
           match geolocator (tr_i ++ [Sleep 1; Geocode s]) s2 with
           | Location c =>
             cell result_df i col_search_address = Some (VStr s2)
             /\ cell result_df i col_coords = Some (VCoords c)
           | NoMatch | Failure =>
             cell result_df i col_search_address = Some (VStr s)
             /\ cell result_df i col_coords = Some VNone
           end
         end.
Proof.
  intros Hwf.
  destruct (process_data_run geolocator geodesic round2 input_df temple_list_df
              tr Hwf)
    as (input_df' & result_df & Hrun & Hcols & _ & _ & _ & Hrow
        & _ & Hleft & _).
  eexists input_df', result_df, _. split; [exact Hrun|].
  intros i a Ha. cbv zeta.
  destruct (Hrow i a Ha) as (s & oc & Hgeo & Hs & Hc).
  rewrite !Hleft by (rewrite Hcols, !elem_of_columns_set_column; auto).
  rewrite Hs, Hc. revert Hgeo. rewrite geocode_address_run. cbv zeta.
  destruct (geolocator _ (search_address a)); simpl;
    [by intros [= <- <-]| |by intros [= <- <-]].
  destruct (geolocator _ (simplified_address _)); simpl;
    by intros [= <- <-].
Qed.

Lemma process_data_search_address_witness :
  wf_input sample_input
  /\ exists input_df' result_df tr',
      process_data second_request_service taxicab round_hundredths
                   sample_input [temple_1; temple_2] []
      = (Ok (input_df', result_df), tr')
      /\ (cell result_df 0 col_search_address
          = Some (VStr (simplified_address (search_address address_A)))
          /\ cell result_df 0 col_coords = Some (VCoords (1, 2)%Q))
      /\ (cell result_df 1 col_search_address
          = Some (VStr (search_address address_B))
          /\ cell result_df 1 col_coords = Some VNone).
Proof.
  split; [exact wf_sample_input|].
  destruct (process_data_search_address second_request_service taxicab
              round_hundredths sample_input [temple_1; temple_2] []
              wf_sample_input)
    as (input_df' & result_df & tr' & Hrun & Hrows).
  exists input_df', result_df, tr'. split; [exact Hrun|]. split.
  - exact (Hrows 0%nat address_A eq_refl).
  - exact (Hrows 1%nat address_B eq_refl).
Defined.
